(** * MercuryiPS_VISA: the Oxford Instruments MercuryiPS driver

    A shallow embedding of
    [qcodes/instrument_drivers/oxford/MercuryiPS_VISA.py]: the response
    parser, the command dressing and reply classification of
    [MercuryiPS.ask], the per-axis sub-supply [MercurySlavePS] and the
    validated target vector of the driver.

    Python [str] is [string]; Python [float] is IEEE 754 binary64, taken
    from the Standard Library's [SpecFloat]; the instrument is a script
    of reply lines, consumed one per round trip; exceptions are the
    [Raise] results of a small state-and-error monad. *)

From Stdlib Require Import ZArith Lia Ascii String DecimalString.
From Stdlib Require Import Floats.SpecFloat.
From stdpp Require Import base option list functions gmap strings.

Local Open Scope string_scope.

(** ** Python values and built-ins *)

Module Py.

(** The exceptions the driver raises or lets through. *)
Inductive exn : Type :=
| ValueError (msg : string)
| IndexError
| KeyError (key : string)
| VisaIOError.

Inductive result (A : Type) : Type :=
| Ok (a : A)
| Raise (e : exn).
Arguments Ok {A} a.
Arguments Raise {A} e.

(** [old in s]: substring test. *)
Fixpoint contains (old s : string) : bool :=
  String.prefix old s ||
  match s with
  | EmptyString => false
  | String _ s' => contains old s'
  end.

(** [s.endswith(suffix)]. *)
Fixpoint endswith (s suffix : string) : bool :=
  String.eqb s suffix ||
  match s with
  | EmptyString => false
  | String _ s' => endswith s' suffix
  end.

(** [s[n:]] for [n >= 0]. *)
Fixpoint slice_from (n : nat) (s : string) : string :=
  match n, s with
  | O, _ => s
  | S _, EmptyString => EmptyString
  | S n', String _ s' => slice_from n' s'
  end.

(** [s.replace(old, new)] for a non-empty [old]: the occurrences are
    found left to right and do not overlap.  [skip] counts the
    characters of a match that are still to be passed over. *)
Fixpoint replace_from (old new : string) (skip : nat) (s : string) : string :=
  match s with
  | EmptyString => EmptyString
  | String c s' =>
      match skip with
      | S k => replace_from old new k s'
      | O =>
          if String.prefix old s
          then new ++ replace_from old new (String.length old - 1) s'
          else String c (replace_from old new 0 s')
      end
  end.

Definition replace (old new s : string) : string :=
  replace_from old new 0 s.

(** [s.split(sep)] for a one-character separator: never empty. *)
Fixpoint split (sep : ascii) (s : string) : list string :=
  match s with
  | EmptyString => [EmptyString]
  | String c s' =>
      if Ascii.eqb c sep then EmptyString :: split sep s'
      else match split sep s' with
           | f :: fs => String c f :: fs
           | [] => [String c EmptyString]
           end
  end.

(** [l[-k]] for [k >= 1]: [IndexError] when the list is too short. *)
Definition getitem_neg {A : Type} (l : list A) (k : nat) : result A :=
  if decide (k <= length l)%nat then
    match l !! (length l - k)%nat with
    | Some a => Ok a
    | None => Raise IndexError
    end
  else Raise IndexError.

(** [l[i]] for [i >= 0]: [IndexError] past the end. *)
Definition getitem {A : Type} (l : list A) (i : nat) : result A :=
  match l !! i with
  | Some a => Ok a
  | None => Raise IndexError
  end.

(** [''.join([d for d in s if keep(d)])]. *)
Fixpoint filter_chars (keep : ascii -> bool) (s : string) : string :=
  match s with
  | EmptyString => EmptyString
  | String c s' =>
      if keep c then String c (filter_chars keep s')
      else filter_chars keep s'
  end.

(** [c in chars] for a list of one-character strings. *)
Definition char_in (c : ascii) (chars : list ascii) : bool :=
  bool_decide (c ∈ chars).

End Py.
Export Py.

(** ** Python floats: IEEE 754 binary64 *)

Abbreviation float := spec_float.

Module Float64.

Definition prec : Z := 53.
Definition emax : Z := 1024.

Definition mul : float -> float -> float := SFmul prec emax.
Definition div : float -> float -> float := SFdiv prec emax.
Definition add : float -> float -> float := SFadd prec emax.
Definition leb : float -> float -> bool := SFleb.

(** The float nearest to [(-1)^sign * m * 10^e] (ties to even),
    for [m >= 0]: what a decimal literal or [float(str)] denotes. *)
Definition of_decimal (sign : bool) (m : Z) (e : Z) : float :=
  match m with
  | Zpos p =>
      match e with
      | Zneg k => div (S754_finite sign p 0) (S754_finite false (10 ^ k) 0)
      | _ => binary_round prec emax sign (p * Z.to_pos (10 ^ e)) 0
      end
  | _ => S754_zero sign
  end.

(** An [int] operand of a float operation. *)
Definition of_int (z : Z) : float :=
  of_decimal (z <? 0)%Z (Z.abs z) 0.

(** The value of a decimal digit. *)
Definition digit_value (c : ascii) : option Z :=
  Z.of_nat <$> Ascii.is_nat c.

(** The unsigned part of a literal: decimal digits around at most one
    point, at least one digit.  Yields the digits read as an integer
    and the number of digits after the point. *)
Fixpoint scan_decimal (s : string) (seen_point : bool)
    (m : Z) (ndigits frac : nat) : option (Z * nat) :=
  match s with
  | EmptyString =>
      match ndigits with O => None | S _ => Some (m, frac) end
  | String c s' =>
      match digit_value c with
      | Some d =>
          scan_decimal s' seen_point (10 * m + d) (S ndigits)
            (if seen_point then S frac else frac)
      | None =>
          if Ascii.eqb c "." && negb seen_point
          then scan_decimal s' true m ndigits frac
          else None
      end
  end.

(** [float(s)] on the strings the driver passes to it, which hold
    decimal digits, ['.'] and ['-'] only: an optional leading minus
    sign and an unsigned literal; [ValueError] otherwise, its text
    ending with the string between single quotes (its [repr]). *)
Definition sign_and_body (s : string) : bool * string :=
  match s with
  | String "-" s' => (true, s')
  | _ => (false, s)
  end.

Definition of_string (s : string) : result float :=
  let '(sign, body) := sign_and_body s in
  match scan_decimal body false 0 0 0 with
  | Some (m, frac) => Ok (of_decimal sign m (- Z.of_nat frac))
  | None =>
      Raise (ValueError ("could not convert string to float: '" ++ s ++ "'"))
  end.

End Float64.

(** A value handed to a setter: [Union[float, str]], and [int]. *)
Inductive pyval : Type :=
| VStr (s : string)
| VInt (z : Z)
| VFloat (f : float).

(** ** The response parser *)

Definition _response_preparser (bare_resp : string) : string :=
  replace ":" "" bare_resp.

Definition scale_to_factor : gmap ascii float :=
  <["n"%char := Float64.of_decimal false 1 (-9)]>
  (<["u"%char := Float64.of_decimal false 1 (-6)]>
  (<["m"%char := Float64.of_decimal false 1 (-3)]>
  (<["k"%char := Float64.of_decimal false 1 3]>
  (<["M"%char := Float64.of_decimal false 1 6]> ∅)))).

Definition numchars : list ascii :=
  ["0"; "1"; "2"; "3"; "4"; "5"; "6"; "7"; "8"; "9"; "."; "-"]%char.

Definition _signal_parser (our_scaling : float) (response : string)
    : result float :=
  let response := _response_preparser response in
  let digits := filter_chars (fun d => char_in d numchars) response in
  let scale_and_unit := slice_from (String.length digits) response in
  let their_scaling :=
    match scale_and_unit with
    | EmptyString => Float64.of_int 1
    | String c _ =>
        match scale_to_factor !! c with
        | Some factor => factor
        | None => Float64.of_int 1
        end
    end in
  match Float64.of_string digits with
  | Ok f => Ok (Float64.mul (Float64.mul f their_scaling) our_scaling)
  | Raise e => Raise e
  end.

(** ** The instrument and the effects of a call

    The transport ([visa_handle.ask]: send one line, block for one
    line) is played by a script of reply lines; [sent] records the
    lines written to the instrument and [errors] what was logged at
    error severity. *)

Record world : Type := World {
  replies : list string;
  sent : list string;
  errors : list string
}.

Definition M (A : Type) : Type := world -> result A * world.

#[export] Instance M_ret : MRet M := fun A a w => (Ok a, w).

#[export] Instance M_bind : MBind M := fun A B k m w =>
  match m w with
  | (Ok a, w') => k a w'
  | (Raise e, w') => (Raise e, w')
  end.

Definition raise {A : Type} (e : exn) : M A := fun w => (Raise e, w).

Definition lift {A : Type} (r : result A) : M A := fun w => (r, w).

Definition visa_ask (cmd : string) : M string := fun w =>
  match replies w with
  | resp :: rest => (Ok resp, World rest (sent w ++ [cmd]) (errors w))
  | [] => (Raise VisaIOError, World [] (sent w ++ [cmd]) (errors w))
  end.

Definition log_error (msg : string) : M unit := fun w =>
  (Ok tt, World (replies w) (sent w) (errors w ++ [msg])).

(** ['{}'.format(v)]: [str] of the value.  The shortest-round-trip
    printer of floats is a built-in that is left open. *)
Definition format_value (float_repr : float -> string) (v : pyval) : string :=
  match v with
  | VStr s => s
  | VInt z => NilZero.string_of_int (Z.to_int z)
  | VFloat f => float_repr f
  end.

(** ** MercuryiPS: the driver *)

(** The coordinates a target can be given in. *)
Inductive coordinate : Type := x | y | z | r | theta | phi | rho.

Definition coordinate_name (c : coordinate) : string :=
  match c with
  | x => "x" | y => "y" | z => "z" | r => "r"
  | theta => "theta" | phi => "phi" | rho => "rho"
  end.

(** What a caller may pass as [field_limits]: [None], a callable, or
    an object of some other type. *)
Inductive field_limits_arg : Type :=
| FLNone
| FLCallable (f : float -> float -> float -> bool)
| FLOther (type_name : string).

Module MercuryiPS.

Definition callable (a : field_limits_arg) : bool :=
  match a with FLCallable _ => true | _ => false end.

Definition is_none (a : field_limits_arg) : bool :=
  match a with FLNone => true | _ => false end.

Definition type_of (a : field_limits_arg) : string :=
  match a with
  | FLNone => "<class 'NoneType'>"
  | FLCallable _ => "<class 'function'>"
  | FLOther type_name => type_name
  end.

(** The argument checks that open [__init__]; the connection, the
    three sub-supplies and the initial target are set up only once
    they pass.  Yields the VISA backend in use. *)
Definition __init__ (name address : string) (visalib : option string)
    (field_limits : field_limits_arg) : result string :=
  if negb (is_none field_limits) && negb (callable field_limits) then
    Raise (ValueError ("Got wrong type of field_limits. Must be a "
                       ++ "function from (x, y, z) -> Bool. Received "
                       ++ type_of field_limits ++ " instead."))
  else
    let visabackend :=
      match visalib with
      | Some (String c lib) =>
          match split "@" (String c lib) !! 1%nat with
          | Some backend => Ok backend
          | None => Raise IndexError
          end
      | _ => Ok "NI"
      end in
    match visabackend with
    | Raise e => Raise e
    | Ok visabackend =>
        if negb (endswith address "SOCKET")
           && negb (String.eqb visabackend "sim")
        then Raise (ValueError ("Incorrect VISA resource name. Must be of "
                      ++ "type TCPIP0::XXX.XXX.XXX.XXX::7020::SOCKET."))
        else Ok visabackend
    end.

(** [field_limits if field_limits else lambda x, y, z: True]. *)
Definition effective_field_limits (field_limits : field_limits_arg)
    : float -> float -> float -> bool :=
  match field_limits with
  | FLCallable f => f
  | _ => fun _ _ _ => true
  end.

Definition ask (cmd : string) : M string :=
  resp ← visa_ask cmd;
  if contains "INVALID" resp then
    _ ← log_error ("Invalid command. Got response: " ++ resp);
    mret resp
  else if endswith resp "VALID" then
    lift (getitem_neg (split ":" resp) 2)
  else
    let base_cmd := replace "READ:" "" cmd in
    mret (replace ("STAT:" ++ base_cmd) "" resp).

(** The identity reply is not SCPI: it is split at the colons and its
    fields 1 to 4 are repacked under the usual four keys. *)
Definition _idn_getter : M (gmap string string) :=
  raw_idn_string ← ask "*IDN?";
  let resps := split ":" raw_idn_string in
  model ← lift (getitem resps 2);
  vendor ← lift (getitem resps 1);
  serial ← lift (getitem resps 3);
  firmware ← lift (getitem resps 4);
  mret (<["model" := model]>
        (<["vendor" := vendor]>
        (<["serial" := serial]>
        (<["firmware" := firmware]> ∅)))).

(** *** The target vector

    [FieldVector] lives in [qcodes.math.field_vector]; its attribute
    state and its methods are left open.  [FieldVector] objects are
    mutable, so they sit in a store of objects and the driver holds a
    reference. *)
Section target.
Context {FieldVector : Type}.

(** [FieldVector()]. *)
Variable fv_new : FieldVector.
(** [v.set_component] of one coordinate: the attributes afterwards, and
    the exception if one was raised. *)
Variable fv_set_component :
  coordinate -> pyval -> FieldVector -> result unit * FieldVector.
(** [v.get_components(c)[0]]. *)
Variable fv_get_component : FieldVector -> coordinate -> float.
Variable float_repr : float -> string.

Record heap : Type := Heap {
  next : nat;
  obj : nat -> FieldVector
}.

Definition H (A : Type) : Type := heap -> result A * heap.

Definition alloc (v : FieldVector) : H nat := fun h =>
  (Ok (next h), Heap (S (next h)) (<[next h := v]> (obj h))).

Definition HBind {A B : Type} (m : H A) (k : A -> H B) : H B := fun h =>
  match m h with
  | (Ok a, h') => k a h'
  | (Raise e, h') => (Raise e, h')
  end.

(** Modelled from the spec: [self.copy(other)] of the absent
    [FieldVector] clones the attributes of [other] into [self]. *)
Definition fv_copy (self other : nat) : H unit := fun h =>
  (Ok tt, Heap (next h) (<[self := obj h other]> (obj h))).

Definition set_component (self : nat) (c : coordinate) (value : pyval)
    : H unit := fun h =>
  let '(res, v) := fv_set_component c value (obj h self) in
  (res, Heap (next h) (<[self := v]> (obj h))).

Definition get_components (self : nat) (c : coordinate) : H float :=
  fun h => (Ok (fv_get_component (obj h self) c), h).

Record t : Type := Driver {
  _field_limits : float -> float -> float -> bool;
  _target_vector : nat
}.

Definition _get_component (self : t) (c : coordinate) : H float :=
  get_components (_target_vector self) c.

Definition _set_target (self : t) (c : coordinate) (target : pyval)
    : H unit :=
  HBind (alloc fv_new) (fun valid_vec =>
  HBind (fv_copy valid_vec (_target_vector self)) (fun _ =>
  HBind (set_component valid_vec c target) (fun _ =>
  HBind (get_components valid_vec x) (fun vx =>
  HBind (get_components valid_vec y) (fun vy =>
  HBind (get_components valid_vec z) (fun vz =>
  if negb (_field_limits self vx vy vz) then
    fun h => (Raise (ValueError ("Cannot set " ++ coordinate_name c
                      ++ " target to " ++ format_value float_repr target
                      ++ ", that would violate the field_limits. ")), h)
  else
    set_component (_target_vector self) c target)))))).

End target.

End MercuryiPS.

(** ** The parameter framework *)

Module Param.

(** Modelled from the spec: the generic parameter bookkeeping of the
    instrument framework is absent.  A read runs [get_cmd] and passes
    the raw reply through [get_parser]; a write passes the value
    through [set_parser] and hands it to [set_cmd]; with a value
    mapping, a write encodes the value through the mapping and a read
    decodes the parsed reply through its inverse. *)
Definition get {A : Type} (get_cmd : M string)
    (get_parser : string -> result A) : M A :=
  raw ← get_cmd; lift (get_parser raw).

Definition set {A B : Type} (set_parser : A -> B) (set_cmd : B -> M unit)
    (value : A) : M unit :=
  set_cmd (set_parser value).

Definition inverse (val_mapping : gmap string string) : gmap string string :=
  list_to_map (prod_swap <$> map_to_list val_mapping).

Definition get_mapped (val_mapping : gmap string string) (get_cmd : M string)
    (get_parser : string -> string) : M string :=
  raw ← get_cmd;
  let parsed := get_parser raw in
  match inverse val_mapping !! parsed with
  | Some value => mret value
  | None => raise (KeyError parsed)
  end.

Definition set_mapped (val_mapping : gmap string string)
    (set_cmd : string -> M unit) (value : string) : M unit :=
  match val_mapping !! value with
  | Some raw => set_cmd raw
  | None => raise (ValueError (value ++ " is not in the value mapping"))
  end.

End Param.

(** ** MercurySlavePS: one sub-supply per magnet axis *)

Fixpoint str_repeat (n : nat) (s : string) : string :=
  match n with
  | O => EmptyString
  | S n' => s ++ str_repeat n' s
  end.

(** [x * 60] for the values of Python that have it. *)
Definition times_60 (x_ : pyval) : pyval :=
  match x_ with
  | VStr s => VStr (str_repeat 60 s)
  | VInt n => VInt (n * 60)
  | VFloat f => VFloat (Float64.mul f (Float64.of_int 60))
  end.

(** [s] between double quotes. *)
Definition quoted (s : string) : string :=
  String "034"%char (s ++ String "034"%char EmptyString).

Module MercurySlavePS.

Record t : Type := Channel {
  name : string;
  uid : string
}.

Definition __init__ (name UID : string) : result t :=
  if contains ":" UID then
    Raise (ValueError ("Invalid UID. Must be axis group name or device "
                       ++ "name, e.g. " ++ quoted "GRPX" ++ " or "
                       ++ quoted "PSU.M1"))
  else Ok (Channel name UID).

Section methods.
Variable float_repr : float -> string.

Definition _param_getter (self : t) (get_cmd : string) : M string :=
  let dressed_cmd :=
    String.concat ":" ["READ"; "DEV"; uid self; "PSU"; get_cmd] in
  resp ← MercuryiPS.ask dressed_cmd;
  mret resp.

Definition _param_setter (self : t) (set_cmd : string) (value : pyval)
    : M unit :=
  let dressed_cmd :=
    String.concat ":" ["SET"; "DEV"; uid self; "PSU"; set_cmd;
                       format_value float_repr value] in
  _ ← MercuryiPS.ask dressed_cmd;
  mret tt.

Definition one : float := Float64.of_int 1.
Definition per_minute : float :=
  Float64.div (Float64.of_int 1) (Float64.of_int 60).

Definition voltage (self : t) : M float :=
  Param.get (_param_getter self "SIG:VOLT") (_signal_parser one).
Definition current (self : t) : M float :=
  Param.get (_param_getter self "SIG:CURR") (_signal_parser one).
Definition current_persistent (self : t) : M float :=
  Param.get (_param_getter self "SIG:PCUR") (_signal_parser one).
Definition current_target (self : t) : M float :=
  Param.get (_param_getter self "SIG:CSET") (_signal_parser one).
Definition field_target (self : t) : M float :=
  Param.get (_param_getter self "SIG:FSET") (_signal_parser one).
Definition field_target_set (self : t) : pyval -> M unit :=
  Param.set id (_param_setter self "SIG:FSET").
Definition current_ramp_rate (self : t) : M float :=
  Param.get (_param_getter self "SIG:RCST") (_signal_parser per_minute).
Definition field_ramp_rate (self : t) : M float :=
  Param.get (_param_getter self "SIG:RFST") (_signal_parser per_minute).
Definition field_ramp_rate_set (self : t) : pyval -> M unit :=
  Param.set times_60 (_param_setter self "SIG:RFST").
Definition field (self : t) : M float :=
  Param.get (_param_getter self "SIG:FLD") (_signal_parser one).
Definition field_persistent (self : t) : M float :=
  Param.get (_param_getter self "SIG:PFLD") (_signal_parser one).
Definition ATOB (self : t) : M float :=
  Param.get (_param_getter self "ATOB") (_signal_parser one).
Definition ATOB_set (self : t) : pyval -> M unit :=
  Param.set id (_param_setter self "ATOB").

Definition ramp_val_mapping : gmap string string :=
  <["HOLD" := "HOLD"]>
  (<["TO SET" := "RTOS"]>
  (<["CLAMP" := "CLMP"]>
  (<["TO ZERO" := "RTOZ"]> ∅))).

Definition ramp_status (self : t) : M string :=
  Param.get_mapped ramp_val_mapping (_param_getter self "ACTN")
    _response_preparser.

Definition _ramp_status_setter (self : t) (cmd : string) : M unit :=
  status_now ← ramp_status self;
  if String.eqb status_now "CLAMP" && String.eqb cmd "RTOS" then
    raise (ValueError ("Error in ramping unit " ++ uid self ++ ": "
             ++ "Can not ramp to target value; power supply is "
             ++ "clamped. Unclamp first by setting ramp status "
             ++ "to HOLD."))
  else _param_setter self "ACTN" (VStr cmd).

Definition ramp_status_set (self : t) : string -> M unit :=
  Param.set_mapped ramp_val_mapping (_ramp_status_setter self).

End methods.

End MercurySlavePS.

(** ** What the claims are measured against

    The reply classification, the parser and the scan as the
    specification words them, to be compared with the code above. *)

(** The second-to-last element of a list, found by walking it. *)
Fixpoint second_to_last {A : Type} (l : list A) : option A :=
  match l with
  | [a; _] => Some a
  | _ :: l' => second_to_last l'
  | [] => None
  end.

(** Removing a prefix from the front of a string, when it is there. *)
Definition strip_prefix (p s : string) : string :=
  if String.prefix p s then slice_from (String.length p) s else s.

Definition is_numchar (c : ascii) : bool := char_in c numchars.

(** The leading run of numeric characters, and what follows it. *)
Fixpoint scan_token (s : string) : string :=
  match s with
  | EmptyString => EmptyString
  | String c s' => if is_numchar c then String c (scan_token s') else EmptyString
  end.

Fixpoint scan_rest (s : string) : string :=
  match s with
  | EmptyString => EmptyString
  | String c s' => if is_numchar c then scan_rest s' else s
  end.

(** The factor of the SI prefix that opens the suffix, if any. *)
Definition instrument_scale (suffix : string) : float :=
  match suffix with
  | String "n" _ => Float64.of_decimal false 1 (-9)
  | String "u" _ => Float64.of_decimal false 1 (-6)
  | String "m" _ => Float64.of_decimal false 1 (-3)
  | String "k" _ => Float64.of_decimal false 1 3
  | String "M" _ => Float64.of_decimal false 1 6
  | _ => Float64.of_int 1
  end.

(** The parser as a left-to-right scan of the colon-free reply. *)
Definition scan_parser (our_scaling : float) (response : string)
    : result float :=
  let response := filter_chars (fun c => negb (Ascii.eqb c ":")) response in
  match Float64.of_string (scan_token response) with
  | Ok f =>
      Ok (Float64.mul (Float64.mul f (instrument_scale (scan_rest response)))
            our_scaling)
  | Raise e => Raise e
  end.

(** A stand-in for [FieldVector] that keeps the Cartesian components
    only, and the admissible region of the unit ball, to exercise the
    target model on. *)
Module Cartesian.

Definition vector : Type := float * float * float.

Definition zero : float := Float64.of_int 0.

Definition new : vector := (zero, zero, zero).

Definition set_component (c : coordinate) (value : pyval) (v : vector)
    : result unit * vector :=
  let '(vx, vy, vz) := v in
  match value, c with
  | VFloat f, x => (Ok tt, (f, vy, vz))
  | VFloat f, y => (Ok tt, (vx, f, vz))
  | VFloat f, z => (Ok tt, (vx, vy, f))
  | _, _ => (Raise (ValueError "not a Cartesian component"), v)
  end.

Definition get_component (v : vector) (c : coordinate) : float :=
  let '(vx, vy, vz) := v in
  match c with
  | x => vx
  | y => vy
  | z => vz
  | _ => zero
  end.

Definition unit_ball (vx vy vz : float) : bool :=
  Float64.leb
    (Float64.add (Float64.add (Float64.mul vx vx) (Float64.mul vy vy))
       (Float64.mul vz vz))
    (Float64.of_int 1).

End Cartesian.

(** The two command shapes, written out. *)
Definition set_line (float_repr : float -> string) (self : MercurySlavePS.t)
    (set_cmd : string) (value : pyval) : string :=
  "SET:DEV:" ++ MercurySlavePS.uid self ++ ":PSU:" ++ set_cmd ++ ":"
  ++ format_value float_repr value.

Definition read_line (self : MercurySlavePS.t) (get_cmd : string) : string :=
  "READ:DEV:" ++ MercurySlavePS.uid self ++ ":PSU:" ++ get_cmd.

(** The numeric parameters of a sub-supply that can be read: the
    getter, the command it dresses and the scale it parses with. *)
Definition numeric_reads : list ((MercurySlavePS.t -> M float) * string * float) :=
  [ (MercurySlavePS.voltage, "SIG:VOLT", MercurySlavePS.one);
    (MercurySlavePS.current, "SIG:CURR", MercurySlavePS.one);
    (MercurySlavePS.current_persistent, "SIG:PCUR", MercurySlavePS.one);
    (MercurySlavePS.current_target, "SIG:CSET", MercurySlavePS.one);
    (MercurySlavePS.field_target, "SIG:FSET", MercurySlavePS.one);
    (MercurySlavePS.current_ramp_rate, "SIG:RCST", MercurySlavePS.per_minute);
    (MercurySlavePS.field_ramp_rate, "SIG:RFST", MercurySlavePS.per_minute);
    (MercurySlavePS.field, "SIG:FLD", MercurySlavePS.one);
    (MercurySlavePS.field_persistent, "SIG:PFLD", MercurySlavePS.one);
    (MercurySlavePS.ATOB, "ATOB", MercurySlavePS.one) ].

(** The text a READ reply is expected to open with. *)
Definition echo_of (self : MercurySlavePS.t) (get_cmd : string) : string :=
  "STAT:DEV:" ++ MercurySlavePS.uid self ++ ":PSU:" ++ get_cmd.

(** A real number written with digits, at most one point and an
    optional leading minus sign. *)
Definition is_digit (c : ascii) : bool :=
  match Float64.digit_value c with Some _ => true | None => false end.

Fixpoint count_chars (keep : ascii -> bool) (s : string) : nat :=
  match s with
  | EmptyString => O
  | String c s' => (if keep c then 1 else 0) + count_chars keep s'
  end.

Fixpoint all_chars (keep : ascii -> bool) (s : string) : bool :=
  match s with
  | EmptyString => true
  | String c s' => keep c && all_chars keep s'
  end.

Definition valid_unsigned (s : string) : bool :=
  all_chars (fun c => is_digit c || Ascii.eqb c ".") s
  && bool_decide (count_chars (fun c => Ascii.eqb c ".") s <= 1)%nat
  && bool_decide (1 <= count_chars is_digit s)%nat.

Definition valid_real (s : string) : bool :=
  match s with
  | String "-" s' => valid_unsigned s'
  | _ => valid_unsigned s
  end.

(** The numeric characters of a reply, as the parser collects them. *)
Definition collected_token (response : string) : string :=
  filter_chars is_numchar (_response_preparser response).

(** What stands behind the last numeric character. *)
Fixpoint rest_after_numchars (s : string) : string :=
  match s with
  | EmptyString => EmptyString
  | String c s' =>
      if (count_chars is_numchar s =? 0)%nat then s
      else rest_after_numchars s'
  end.

(** The parser with all numeric characters as the token and what
    stands behind them as the suffix. *)
Definition collect_parser (our_scaling : float) (response : string)
    : result float :=
  let response := filter_chars (fun c => negb (Ascii.eqb c ":")) response in
  match Float64.of_string (filter_chars is_numchar response) with
  | Ok f =>
      Ok (Float64.mul
            (Float64.mul f (instrument_scale (rest_after_numchars response)))
            our_scaling)
  | Raise e => Raise e
  end.

(** Whether a string holds none of the characters [keep] picks. *)
Definition free_of (keep : ascii -> bool) (s : string) : bool :=
  all_chars (fun c => negb (keep c)) s.

Definition is_colon (c : ascii) : bool := Ascii.eqb c ":".

(** The figure a reply carries, in the unit it names: the number
    times the factor of the SI prefix, before the caller's scale. *)
Definition reply_figure (response : string) : result float :=
  let colon_free := filter_chars (fun c => negb (Ascii.eqb c ":")) response in
  let token := filter_chars is_numchar colon_free in
  match Float64.of_string token with
  | Ok f =>
      Ok (Float64.mul f
            (instrument_scale (slice_from (String.length token) colon_free)))
  | Raise e => Raise e
  end.

(** The refusal of an address, and the field limits that pass the
    first check of the constructor. *)
Definition address_error : exn :=
  ValueError ("Incorrect VISA resource name. Must be of "
              ++ "type TCPIP0::XXX.XXX.XXX.XXX::7020::SOCKET.").

Definition is_none_or_callable (fl : field_limits_arg) : bool :=
  MercuryiPS.is_none fl || MercuryiPS.callable fl.

(** * Properties *)

(** ** Strings *)

Section string_facts.
Implicit Types (s t old new : string) (c : ascii).

Lemma append_cons c s t : String c s ++ t = String c (s ++ t).
Proof. reflexivity. Qed.

Lemma append_nil_l s : "" ++ s = s.
Proof. reflexivity. Qed.

Lemma append_nil_r s : s ++ "" = s.
Proof. induction s as [|c s IH]; [done|by rewrite append_cons, IH]. Qed.

Lemma append_assoc s t u : (s ++ t) ++ u = s ++ t ++ u.
Proof. induction s as [|c s IH]; [done|by rewrite !append_cons, IH]. Qed.

Lemma prefix_nil s : String.prefix "" s = true.
Proof. by destruct s. Qed.

Lemma prefix_cons c s d t :
  String.prefix (String c s) (String d t)
  = bool_decide (c = d) && String.prefix s t.
Proof. simpl. destruct (ascii_dec c d); by case_bool_decide. Qed.

Lemma prefix_app s t : String.prefix s (s ++ t) = true.
Proof.
  induction s as [|c s IH]; [apply prefix_nil|].
  change (String c s ++ t) with (String c (s ++ t)).
  rewrite prefix_cons, IH. by rewrite bool_decide_eq_true_2.
Qed.

Lemma prefix_split s t :
  String.prefix s t = true -> exists u, t = s ++ u.
Proof.
  revert t. induction s as [|c s IH]; intros t H; [by exists t|].
  destruct t as [|d t]; [done|].
  rewrite prefix_cons in H. apply andb_true_iff in H as [Hc Hs].
  apply bool_decide_eq_true in Hc as ->.
  destruct (IH _ Hs) as [u ->]. by exists u.
Qed.

Lemma prefix_refl s : String.prefix s s = true.
Proof. pose proof (prefix_app s "") as H. by rewrite append_nil_r in H. Qed.

Lemma contains_nil old : contains old "" = String.prefix old "".
Proof. unfold contains. apply orb_false_r. Qed.

Lemma contains_cons old c s :
  contains old (String c s)
  = String.prefix old (String c s) || contains old s.
Proof. reflexivity. Qed.

(** [old in s] holds exactly when [old] occurs somewhere in [s]. *)
Lemma contains_spec old s :
  contains old s = true <-> exists p q, s = p ++ old ++ q.
Proof.
  split.
  - induction s as [|c s IH]; intros H.
    + rewrite contains_nil in H.
      destruct (prefix_split _ _ H) as [u ->]. by exists "", u.
    + rewrite contains_cons in H. apply orb_true_iff in H as [H|H].
      * destruct (prefix_split _ _ H) as [u ->]. by exists "", u.
      * destruct (IH H) as (p & q & ->). by exists (String c p), q.
  - intros (p & q & ->). induction p as [|c p IH].
    + rewrite append_nil_l.
      destruct (old ++ q) as [|d u] eqn:E.
      * rewrite contains_nil, <- E. apply prefix_app.
      * rewrite contains_cons, <- E, prefix_app. done.
    + rewrite append_cons, contains_cons, IH. apply orb_true_r.
Qed.

Lemma endswith_nil t : endswith "" t = String.eqb "" t.
Proof. unfold endswith. apply orb_false_r. Qed.

Lemma endswith_cons c s t :
  endswith (String c s) t = String.eqb (String c s) t || endswith s t.
Proof. reflexivity. Qed.

(** [s.endswith(t)] holds exactly when [s] is something followed by [t]. *)
Lemma endswith_spec s t :
  endswith s t = true <-> exists p, s = p ++ t.
Proof.
  split.
  - induction s as [|c s IH]; intros H.
    + rewrite endswith_nil in H.
      apply String.eqb_eq in H as <-. by exists "".
    + rewrite endswith_cons in H. apply orb_true_iff in H as [H|H].
      * apply String.eqb_eq in H as <-. by exists "".
      * destruct (IH H) as [p ->]. by exists (String c p).
  - intros [p ->]. induction p as [|c p IH].
    + rewrite append_nil_l. destruct t as [|d u].
      * done.
      * by rewrite endswith_cons, String.eqb_refl.
    + rewrite append_cons, endswith_cons, IH. apply orb_true_r.
Qed.

Lemma endswith_contains s t : endswith s t = true -> contains t s = true.
Proof.
  intros [p ->]%endswith_spec. apply contains_spec.
  exists p, "". by rewrite append_nil_r.
Qed.

Lemma endswith_append s t u :
  endswith s (t ++ u) = true -> endswith s u = true.
Proof.
  intros [p ->]%endswith_spec. apply endswith_spec.
  exists (p ++ t). by rewrite append_assoc.
Qed.

End string_facts.

(** ** [str.replace] and [str.split] *)

Section replace_facts.
Implicit Types (s t old new : string) (c : ascii).

Lemma replace_from_skip old new p s :
  replace_from old new (String.length p) (p ++ s) = replace_from old new 0 s.
Proof. induction p as [|c p IH]; [done|exact IH]. Qed.

Lemma replace_nil old new : replace old new "" = "".
Proof. reflexivity. Qed.

(** At an occurrence, the replacement is emitted and the scan goes on
    behind the occurrence. *)
Lemma replace_match old new s :
  old <> "" -> replace old new (old ++ s) = new ++ replace old new s.
Proof.
  destruct old as [|c o]; [done|intros _].
  unfold replace. rewrite append_cons.
  change (replace_from (String c o) new 0 (String c (o ++ s)))
    with (if String.prefix (String c o) (String c (o ++ s))
          then new ++ replace_from (String c o) new
                        (String.length (String c o) - 1) (o ++ s)
          else String c (replace_from (String c o) new 0 (o ++ s))).
  rewrite <- append_cons, prefix_app.
  change (String.length (String c o) - 1)%nat with (S (String.length o) - 1)%nat.
  replace (S (String.length o) - 1)%nat with (String.length o) by lia.
  by rewrite replace_from_skip.
Qed.

(** Elsewhere, the character is kept. *)
Lemma replace_nomatch old new c s :
  String.prefix old (String c s) = false ->
  replace old new (String c s) = String c (replace old new s).
Proof.
  intros H. unfold replace.
  change (replace_from old new 0 (String c s))
    with (if String.prefix old (String c s)
          then new ++ replace_from old new (String.length old - 1) s
          else String c (replace_from old new 0 s)).
  by rewrite H.
Qed.

Lemma replace_absent old new s :
  contains old s = false -> replace old new s = s.
Proof.
  induction s as [|c s IH]; [done|].
  rewrite contains_cons. intros [Hp Hc]%orb_false_iff.
  by rewrite replace_nomatch, IH.
Qed.

(** Removing a pattern that opens the string and occurs nowhere in the
    remainder leaves the remainder. *)
Lemma replace_leading old s :
  old <> "" -> contains old s = false -> replace old "" (old ++ s) = s.
Proof. intros Hne Hc. by rewrite replace_match, replace_absent. Qed.

(** The pre-parser drops the colons and nothing else. *)
Lemma response_preparser_filter s :
  _response_preparser s = filter_chars (fun c => negb (Ascii.eqb c ":")) s.
Proof.
  unfold _response_preparser. induction s as [|c s IH]; [done|].
  destruct (Ascii.eqb_spec c ":") as [->|Hne].
  - change (String ":" s) with (":" ++ s).
    rewrite replace_match by done. exact IH.
  - rewrite replace_nomatch.
    + simpl. destruct (Ascii.eqb_spec c ":"); [done|]. simpl. by rewrite IH.
    + rewrite prefix_cons. rewrite bool_decide_eq_false_2; [done|congruence].
Qed.

Lemma split_nonempty sep s : split sep s <> [].
Proof.
  destruct s as [|c s]; [done|]. simpl.
  destruct (Ascii.eqb c sep); [done|]. by destruct (split sep s).
Qed.

Lemma split_length sep s :
  length (split sep s) = S (count_chars (Ascii.eqb sep) s).
Proof.
  induction s as [|c s IH]; [done|]. simpl.
  rewrite (Ascii.eqb_sym sep c). destruct (Ascii.eqb c sep); simpl.
  - by rewrite IH.
  - pose proof (split_nonempty sep s).
    destruct (split sep s); [done|]. simpl in *. done.
Qed.

(** Joining the fields with the separator gives the string back. *)
Lemma split_join sep s :
  String.concat (String sep "") (split sep s) = s.
Proof.
  induction s as [|c s IH]; [done|]. simpl split.
  pose proof (split_nonempty sep s) as Hne.
  destruct (Ascii.eqb_spec c sep) as [->|_].
  - destruct (split sep s) as [|f fs]; [done|].
    change (String.concat (String sep "") ("" :: f :: fs))
      with (String sep (String.concat (String sep "") (f :: fs))).
    by rewrite IH.
  - destruct (split sep s) as [|f fs]; [done|].
    rewrite <- IH. by destruct fs.
Qed.

Lemma contains_char_count c s :
  contains (String c "") s = true -> (1 <= count_chars (Ascii.eqb c) s)%nat.
Proof.
  induction s as [|d s IH]; [done|].
  rewrite contains_cons, prefix_cons, prefix_nil, andb_true_r.
  simpl count_chars. intros [H|H]%orb_true_iff.
  - apply bool_decide_eq_true in H as ->. rewrite Ascii.eqb_refl. lia.
  - specialize (IH H). lia.
Qed.

Lemma count_contains_char c s :
  (1 <= count_chars (Ascii.eqb c) s)%nat -> contains (String c "") s = true.
Proof.
  induction s as [|d s IH]; simpl count_chars; [lia|].
  rewrite contains_cons, prefix_cons, prefix_nil, andb_true_r.
  destruct (Ascii.eqb_spec c d) as [->|Hne]; intros H.
  - by rewrite bool_decide_eq_true_2.
  - rewrite IH by (simpl in H; lia). apply orb_true_r.
Qed.

End replace_facts.

Section list_facts.
Context {A : Type}.
Implicit Types (l : list A).

Lemma second_to_last_cons a l :
  (2 <= length l)%nat -> second_to_last (a :: l) = second_to_last l.
Proof. destruct l as [|b [|c l]]; simpl; [lia|lia|done]. Qed.

Lemma second_to_last_short l :
  (length l < 2)%nat -> second_to_last l = None.
Proof. destruct l as [|b [|c l]]; simpl; [done|done|lia]. Qed.

Lemma second_to_last_long l :
  (2 <= length l)%nat -> is_Some (second_to_last l).
Proof.
  induction l as [|a l IH]; simpl length; [lia|]. intros H.
  destruct (decide (2 <= length l)%nat) as [Hl|Hl].
  - rewrite second_to_last_cons by done. auto.
  - destruct l as [|b [|c l]]; simpl in *; [lia| |lia]. by eexists.
Qed.

(** [l[-2]] is the second-to-last element, or [IndexError]. *)
Lemma getitem_neg_2 l :
  getitem_neg l 2 =
  match second_to_last l with
  | Some a => Ok a
  | None => Raise IndexError
  end.
Proof.
  unfold getitem_neg. induction l as [|a l IH]; [done|].
  destruct (decide (2 <= length l)%nat) as [Hl|Hl].
  - rewrite second_to_last_cons by done. rewrite <- IH.
    rewrite !decide_True by (simpl; lia).
    replace (length (a :: l) - 2)%nat with (S (length l - 2))
      by (simpl; lia).
    done.
  - destruct l as [|b [|c l]]; simpl in *; [done|done|lia].
Qed.

End list_facts.

(** ** Reply classification *)

Section ask_facts.
Implicit Types (c r : string) (rest snt errs : list string).

Lemma ask_run c r rest snt errs :
  MercuryiPS.ask c (World (r :: rest) snt errs) =
  if contains "INVALID" r then
    (Ok r, World rest (snt ++ [c])
             (errs ++ ["Invalid command. Got response: " ++ r]))
  else if endswith r "VALID" then
    (getitem_neg (split ":" r) 2, World rest (snt ++ [c]) errs)
  else
    (Ok (replace ("STAT:" ++ replace "READ:" "" c) "" r),
     World rest (snt ++ [c]) errs).
Proof.
  unfold MercuryiPS.ask, mbind, M_bind, visa_ask. simpl.
  destruct (contains "INVALID" r); [reflexivity|].
  destruct (endswith r "VALID"); reflexivity.
Qed.

Lemma ask_no_reply c snt errs :
  MercuryiPS.ask c (World [] snt errs)
  = (Raise VisaIOError, World [] (snt ++ [c]) errs).
Proof. reflexivity. Qed.

(** Whatever comes back, [ask] writes exactly the command. *)
Lemma ask_sent c w :
  sent (MercuryiPS.ask c w).2 = (sent w ++ [c])%list.
Proof.
  destruct w as [[|r rest] snt errs]; [done|].
  rewrite ask_run. destruct (contains "INVALID" r); [done|].
  by destruct (endswith r "VALID").
Qed.

(** A reply with a colon has a second-to-last field. *)
Lemma colon_second_to_last r :
  contains ":" r = true -> is_Some (second_to_last (split ":" r)).
Proof.
  intros H%contains_char_count. apply second_to_last_long.
  rewrite split_length. lia.
Qed.

End ask_facts.

(** C1 (as amended): [MercuryiPS.ask] classifies the reply [r] to the
    command [c] in three mutually exclusive ways.  If [r] contains
    [INVALID], it logs at error severity and returns [r] unchanged.
    Otherwise, if [r] ends with [VALID] and has a colon, it returns the
    second-to-last colon-delimited field of [r].  Otherwise, if [r] does
    not end with [VALID], it returns [r] with every occurrence of
    [STAT:] followed by the command without its [READ:] removed; when
    [r] opens with that text and does not hold it again, what remains is
    the payload behind it. *)
Theorem ask_classifies (c r : string) (rest snt errs : list string) :
  let w := World (r :: rest) snt errs in
  let w' := World rest (snt ++ [c]) errs in
  let echo := "STAT:" ++ replace "READ:" "" c in
  (contains "INVALID" r = true ->
     MercuryiPS.ask c w
     = (Ok r, World rest (snt ++ [c])
                (errs ++ ["Invalid command. Got response: " ++ r])))
  /\ (contains "INVALID" r = false -> endswith r "VALID" = true ->
      contains ":" r = true ->
      exists field, second_to_last (split ":" r) = Some field
                    /\ MercuryiPS.ask c w = (Ok field, w'))
  /\ (contains "INVALID" r = false -> endswith r "VALID" = false ->
      MercuryiPS.ask c w = (Ok (replace echo "" r), w')
      /\ forall payload, r = echo ++ payload ->
           contains echo payload = false ->
           MercuryiPS.ask c w = (Ok payload, w')).
Proof.
  intros w w' echo. subst w. rewrite ask_run. split; [|split].
  - by intros ->.
  - intros -> -> Hcolon.
    destruct (colon_second_to_last r Hcolon) as [field Hf].
    exists field. split; [done|]. by rewrite getitem_neg_2, Hf.
  - intros -> ->. split; [done|].
    intros payload -> Hp. by rewrite replace_leading.
Qed.

Lemma ask_classifies_witness :
  MercuryiPS.ask "SET:DEV:GRPX:PSU:SIG:FSET:1.5"
    (World ["STAT:SET:DEV:GRPX:PSU:SIG:FSET:1.5:VALID"] [] [])
  = (Ok "1.5", World [] ["SET:DEV:GRPX:PSU:SIG:FSET:1.5"] [])
  /\ MercuryiPS.ask "READ:DEV:GRPX:PSU:SIG:FLD"
       (World ["STAT:DEV:GRPX:PSU:SIG:FLD:0.5T"] [] [])
     = (Ok ":0.5T", World [] ["READ:DEV:GRPX:PSU:SIG:FLD"] [])
  /\ MercuryiPS.ask "READ:DEV:GRPX:PSU:SIG:FLD"
       (World ["STAT:DEV:GRPX:PSU:SIG:FLD:INVALID"] [] [])
     = (Ok "STAT:DEV:GRPX:PSU:SIG:FLD:INVALID",
        World [] ["READ:DEV:GRPX:PSU:SIG:FLD"]
          ["Invalid command. Got response: STAT:DEV:GRPX:PSU:SIG:FLD:INVALID"]).
Proof.
  split; [|split].
  - destruct (ask_classifies "SET:DEV:GRPX:PSU:SIG:FSET:1.5"
                "STAT:SET:DEV:GRPX:PSU:SIG:FSET:1.5:VALID" [] [] [])
      as (_ & Hset & _).
    destruct Hset as (field & Hfield & Hask); [reflexivity..|].
    vm_compute in Hfield. injection Hfield as <-. exact Hask.
  - destruct (ask_classifies "READ:DEV:GRPX:PSU:SIG:FLD"
                "STAT:DEV:GRPX:PSU:SIG:FLD:0.5T" [] [] [])
      as (_ & _ & Hread).
    destruct Hread as [_ Hpayload]; [reflexivity..|].
    apply (Hpayload ":0.5T"); reflexivity.
  - destruct (ask_classifies "READ:DEV:GRPX:PSU:SIG:FLD"
                "STAT:DEV:GRPX:PSU:SIG:FLD:INVALID" [] [] [])
      as (Hinvalid & _).
    apply Hinvalid. reflexivity.
Defined.

(** The claim of C1 fails as it was worded: on a READ reply the echo is
    removed wherever it stands, not only at the front, and a reply that
    ends with [VALID] but has no colon has no field to return. *)
Lemma ask_classifies_counterexample :
  ~ (forall c r rest snt errs,
       contains "INVALID" r = false -> endswith r "VALID" = false ->
       (MercuryiPS.ask c (World (r :: rest) snt errs)).1
       = Ok (strip_prefix ("STAT:" ++ replace "READ:" "" c) r))
  /\ ~ (forall c r rest snt errs,
          contains "INVALID" r = false -> endswith r "VALID" = true ->
          exists field,
            (MercuryiPS.ask c (World (r :: rest) snt errs)).1 = Ok field).
Proof.
  split.
  - intros H. specialize (H "READ:X" "STAT:XSTAT:X1" [] [] []).
    vm_compute in H. specialize (H eq_refl eq_refl). discriminate H.
  - intros H. specialize (H "SET:X" "VALID" [] [] []).
    destruct H as [field H]; [reflexivity..|].
    vm_compute in H. discriminate H.
Qed.

(** C9: a reply that ends with [INVALID] also ends with [VALID], yet
    [MercuryiPS.ask] takes the rejected-command branch: the reply is
    logged and returned verbatim, because the substring test comes
    first. *)
Theorem ask_invalid_before_valid (c r : string) (rest snt errs : list string) :
  endswith r "INVALID" = true ->
  endswith r "VALID" = true
  /\ MercuryiPS.ask c (World (r :: rest) snt errs)
     = (Ok r, World rest (snt ++ [c])
                (errs ++ ["Invalid command. Got response: " ++ r])).
Proof.
  intros H. split.
  - by apply (endswith_append r "IN" "VALID").
  - rewrite ask_run. by rewrite (endswith_contains _ _ H).
Qed.

Lemma ask_invalid_before_valid_witness :
  endswith "STAT:SET:DEV:GRPX:PSU:ACTN:RTOS:INVALID" "VALID" = true
  /\ MercuryiPS.ask "SET:DEV:GRPX:PSU:ACTN:RTOS"
       (World ["STAT:SET:DEV:GRPX:PSU:ACTN:RTOS:INVALID"] [] [])
     = (Ok "STAT:SET:DEV:GRPX:PSU:ACTN:RTOS:INVALID",
        World [] ["SET:DEV:GRPX:PSU:ACTN:RTOS"]
          ["Invalid command. Got response: "
           ++ "STAT:SET:DEV:GRPX:PSU:ACTN:RTOS:INVALID"]).
Proof.
  apply (ask_invalid_before_valid "SET:DEV:GRPX:PSU:ACTN:RTOS"
           "STAT:SET:DEV:GRPX:PSU:ACTN:RTOS:INVALID" [] [] []).
  reflexivity.
Defined.

(** ** Writes through [_param_setter] *)

Section setter_facts.
Variable float_repr : float -> string.
Implicit Types (self : MercurySlavePS.t) (value : pyval).

Lemma param_setter_run self set_cmd value w :
  MercurySlavePS._param_setter float_repr self set_cmd value w =
  match MercuryiPS.ask (set_line float_repr self set_cmd value) w with
  | (Ok _, w') => (Ok tt, w')
  | (Raise e, w') => (Raise e, w')
  end.
Proof.
  unfold MercurySlavePS._param_setter, mbind, M_bind.
  change (String.concat ":" ["SET"; "DEV"; MercurySlavePS.uid self; "PSU";
                             set_cmd; format_value float_repr value])
    with (set_line float_repr self set_cmd value).
  by destruct (MercuryiPS.ask _ w) as [[?|?] ?].
Qed.

Lemma param_setter_sent self set_cmd value w :
  sent (MercurySlavePS._param_setter float_repr self set_cmd value w).2
  = (sent w ++ [set_line float_repr self set_cmd value])%list.
Proof.
  rewrite param_setter_run, <- ask_sent.
  by destruct (MercuryiPS.ask _ w) as [[?|?] ?].
Qed.

Lemma param_getter_run self get_cmd w :
  MercurySlavePS._param_getter self get_cmd w
  = MercuryiPS.ask (read_line self get_cmd) w.
Proof.
  unfold MercurySlavePS._param_getter, mbind, M_bind.
  change (String.concat ":" ["READ"; "DEV"; MercurySlavePS.uid self; "PSU";
                             get_cmd])
    with (read_line self get_cmd).
  by destruct (MercuryiPS.ask _ w) as [[?|?] ?].
Qed.

End setter_facts.

(** C10 (as amended): for every command, value and reply for which the
    classification of [ask] returns, that is every reply but a colon-free
    one that ends with [VALID], a write through [_param_setter] sends the
    dressed SET command, discards the classified reply and returns
    [None]. *)
Theorem param_setter_discards_reply (float_repr : float -> string)
    (self : MercurySlavePS.t) (set_cmd : string) (value : pyval)
    (r : string) (rest snt errs : list string) :
  contains "INVALID" r = true \/ endswith r "VALID" = false
  \/ contains ":" r = true ->
  exists errs',
    MercurySlavePS._param_setter float_repr self set_cmd value
      (World (r :: rest) snt errs)
    = (Ok tt,
       World rest
         (snt ++ ["SET:DEV:" ++ MercurySlavePS.uid self ++ ":PSU:" ++ set_cmd
                  ++ ":" ++ format_value float_repr value])
         errs').
Proof.
  intros H. rewrite param_setter_run, ask_run. unfold set_line.
  destruct (contains "INVALID" r) eqn:Hinv; [by eexists|].
  destruct (endswith r "VALID") eqn:Hval; [|by eexists].
  destruct H as [H|[H|H]]; [done..|].
  rewrite getitem_neg_2.
  destruct (colon_second_to_last r H) as [field ->]. by eexists.
Qed.

Lemma param_setter_discards_reply_witness :
  exists errs',
    MercurySlavePS._param_setter (fun _ => "1.5")
      (MercurySlavePS.Channel "GRPX" "GRPX") "SIG:FSET"
      (VFloat (Float64.of_decimal false 15 (-1)))
      (World ["STAT:SET:DEV:GRPX:PSU:SIG:FSET:1.5000:VALID"] [] [])
    = (Ok tt, World [] ["SET:DEV:GRPX:PSU:SIG:FSET:1.5"] errs').
Proof.
  apply (param_setter_discards_reply (fun _ => "1.5")
           (MercurySlavePS.Channel "GRPX" "GRPX") "SIG:FSET"
           (VFloat (Float64.of_decimal false 15 (-1)))
           "STAT:SET:DEV:GRPX:PSU:SIG:FSET:1.5000:VALID" [] [] []).
  right. right. reflexivity.
Defined.

(** The claim of C10 fails as it was worded: the write raises
    [IndexError] on the reply [VALID], which has no second-to-last
    field. *)
Lemma param_setter_counterexample :
  ~ (forall float_repr self set_cmd value r rest snt errs,
       exists w',
         MercurySlavePS._param_setter float_repr self set_cmd value
           (World (r :: rest) snt errs) = (Ok tt, w')).
Proof.
  intros H.
  destruct (H (fun _ => "") (MercurySlavePS.Channel "GRPX" "GRPX")
              "ACTN" (VStr "HOLD") "VALID" [] [] []) as [w' Hw].
  vm_compute in Hw. discriminate Hw.
Qed.

(** ** Construction *)

(** C7: a sub-supply whose UID holds a colon, such as [PSU:M1], is
    refused with a [ValueError], a colon-free UID such as [PSU.M1] is
    accepted, and the driver refuses a [field_limits] that is neither
    [None] nor callable with a [ValueError]. *)
Theorem construction_checks :
  (forall name before after,
     exists msg,
       MercurySlavePS.__init__ name (before ++ ":" ++ after)
       = Raise (ValueError msg))
  /\ (forall name UID,
        (forall before after, UID <> before ++ ":" ++ after) ->
        MercurySlavePS.__init__ name UID = Ok (MercurySlavePS.Channel name UID))
  /\ (exists msg, MercurySlavePS.__init__ "M1" "PSU:M1" = Raise (ValueError msg))
  /\ MercurySlavePS.__init__ "M1" "PSU.M1"
     = Ok (MercurySlavePS.Channel "M1" "PSU.M1")
  /\ (forall name address visalib type_name,
        exists msg,
          MercuryiPS.__init__ name address visalib (FLOther type_name)
          = Raise (ValueError msg)).
Proof.
  split; [|split; [|split; [|split]]].
  - intros name before after. unfold MercurySlavePS.__init__.
    rewrite (proj2 (contains_spec ":" _)) by eauto. by eexists.
  - intros name UID H. unfold MercurySlavePS.__init__.
    destruct (contains ":" UID) eqn:Hc; [|done].
    apply contains_spec in Hc as (before & after & ->). by destruct (H before after).
  - by eexists.
  - reflexivity.
  - intros. by eexists.
Qed.

Lemma construction_checks_witness :
  MercurySlavePS.__init__ "X" "GRPX" = Ok (MercurySlavePS.Channel "X" "GRPX").
Proof.
  destruct construction_checks as (_ & Haccept & _).
  apply Haccept. intros before after H.
  assert (contains ":" "GRPX" = true) as Hc
    by (apply contains_spec; eauto).
  vm_compute in Hc. discriminate Hc.
Defined.

(** ** The ramp-status guard *)

Section ramp_facts.
Variable float_repr : float -> string.
Implicit Types (self : MercurySlavePS.t) (w : world).

Lemma get_mapped_run val_mapping get_cmd get_parser w :
  Param.get_mapped val_mapping get_cmd get_parser w =
  match get_cmd w with
  | (Ok raw, w') =>
      match Param.inverse val_mapping !! get_parser raw with
      | Some value => (Ok value, w')
      | None => (Raise (KeyError (get_parser raw)), w')
      end
  | (Raise e, w') => (Raise e, w')
  end.
Proof.
  unfold Param.get_mapped, mbind, M_bind.
  destruct (get_cmd w) as [[raw|e] w']; [|done].
  by destruct (Param.inverse val_mapping !! get_parser raw).
Qed.

(** Reading the ramp status writes the READ command for [ACTN]. *)
Lemma ramp_status_sent self w :
  sent (MercurySlavePS.ramp_status self w).2
  = (sent w ++ [read_line self "ACTN"])%list.
Proof.
  unfold MercurySlavePS.ramp_status.
  rewrite get_mapped_run, param_getter_run, <- ask_sent.
  destruct (MercuryiPS.ask _ w) as [[raw|e] w']; [|done].
  by destruct (Param.inverse _ !! _).
Qed.

(** Decoding inverts the value mapping. *)
Lemma inverse_lookup (val_mapping : gmap string string) raw value :
  Param.inverse val_mapping !! raw = Some value ->
  val_mapping !! value = Some raw.
Proof.
  unfold Param.inverse. intros H%elem_of_list_to_map_2.
  apply list_elem_of_fmap in H as ([k v] & [= -> ->] & H).
  by apply elem_of_map_to_list in H.
Qed.

Lemma ramp_token_RTOS (new : string) :
  MercurySlavePS.ramp_val_mapping !! new = Some "RTOS" <-> new = "TO SET".
Proof.
  split; [|by intros ->].
  unfold MercurySlavePS.ramp_val_mapping. intros H.
  repeat (apply lookup_insert_Some in H as [[<- ?]|[? H]]; [done|]).
  by rewrite lookup_empty in H.
Qed.

Lemma ramp_status_setter_run self cmd w status_now w1 :
  MercurySlavePS.ramp_status self w = (Ok status_now, w1) ->
  MercurySlavePS._ramp_status_setter float_repr self cmd w =
  if String.eqb status_now "CLAMP" && String.eqb cmd "RTOS" then
    (Raise (ValueError ("Error in ramping unit " ++ MercurySlavePS.uid self
              ++ ": Can not ramp to target value; power supply is "
              ++ "clamped. Unclamp first by setting ramp status to HOLD.")),
     w1)
  else MercurySlavePS._param_setter float_repr self "ACTN" (VStr cmd) w1.
Proof.
  intros H. unfold MercurySlavePS._ramp_status_setter, mbind, M_bind.
  rewrite H. by destruct (_ && _).
Qed.

End ramp_facts.

(** C2: writing the ramp status first reads it.  When the status read
    is [CLAMP] and the requested status maps to the token [RTOS], the
    write raises a [ValueError] that names the axis and no SET command
    is sent; in every other case the SET command for [ACTN] goes out
    with the requested token. *)
Theorem ramp_status_guard (float_repr : float -> string)
    (self : MercurySlavePS.t) (new tok status_now : string) (w w1 : world) :
  MercurySlavePS.ramp_val_mapping !! new = Some tok ->
  MercurySlavePS.ramp_status self w = (Ok status_now, w1) ->
  let uid := MercurySlavePS.uid self in
  let read := "READ:DEV:" ++ uid ++ ":PSU:ACTN" in
  let set := "SET:DEV:" ++ uid ++ ":PSU:ACTN:" ++ tok in
  sent w1 = (sent w ++ [read])%list
  /\ (status_now = "CLAMP" -> tok = "RTOS" ->
      MercurySlavePS.ramp_status_set float_repr self new w
      = (Raise (ValueError ("Error in ramping unit " ++ uid
                  ++ ": Can not ramp to target value; power supply is "
                  ++ "clamped. Unclamp first by setting ramp status to HOLD.")),
         w1))
  /\ (~ (status_now = "CLAMP" /\ tok = "RTOS") ->
      sent (MercurySlavePS.ramp_status_set float_repr self new w).2
      = (sent w ++ [read; set])%list).
Proof.
  intros Hmap Hread uid read set.
  assert (sent w1 = (sent w ++ [read])%list) as Hsent.
  { pose proof (ramp_status_sent self w) as H. by rewrite Hread in H. }
  unfold MercurySlavePS.ramp_status_set, Param.set_mapped. rewrite Hmap.
  rewrite (ramp_status_setter_run _ _ _ _ _ _ Hread).
  split; [done|split].
  - intros -> ->. reflexivity.
  - intros Hnot.
    destruct (String.eqb_spec status_now "CLAMP") as [->|?];
      destruct (String.eqb_spec tok "RTOS") as [->|?]; simpl;
      try (by destruct Hnot);
      by rewrite param_setter_sent, Hsent, <- app_assoc.
Qed.

Lemma ramp_status_guard_witness :
  MercurySlavePS.ramp_status_set (fun _ => "")
    (MercurySlavePS.Channel "GRPX" "GRPX") "TO SET"
    (World ["STAT:DEV:GRPX:PSU:ACTN:CLMP"] [] [])
  = (Raise (ValueError ("Error in ramping unit GRPX"
              ++ ": Can not ramp to target value; power supply is "
              ++ "clamped. Unclamp first by setting ramp status to HOLD.")),
     World [] ["READ:DEV:GRPX:PSU:ACTN"] [])
  /\ sent (MercurySlavePS.ramp_status_set (fun _ => "")
             (MercurySlavePS.Channel "GRPX" "GRPX") "TO SET"
             (World ["STAT:DEV:GRPX:PSU:ACTN:HOLD";
                     "STAT:SET:DEV:GRPX:PSU:ACTN:RTOS:VALID"] [] [])).2
     = ["READ:DEV:GRPX:PSU:ACTN"; "SET:DEV:GRPX:PSU:ACTN:RTOS"].
Proof.
  split.
  - destruct (ramp_status_guard (fun _ => "")
                (MercurySlavePS.Channel "GRPX" "GRPX") "TO SET" "RTOS" "CLAMP"
                (World ["STAT:DEV:GRPX:PSU:ACTN:CLMP"] [] [])
                (World [] ["READ:DEV:GRPX:PSU:ACTN"] []))
      as (_ & Hreject & _); [vm_compute; reflexivity..|].
    apply Hreject; reflexivity.
  - destruct (ramp_status_guard (fun _ => "")
                (MercurySlavePS.Channel "GRPX" "GRPX") "TO SET" "RTOS" "HOLD"
                (World ["STAT:DEV:GRPX:PSU:ACTN:HOLD";
                        "STAT:SET:DEV:GRPX:PSU:ACTN:RTOS:VALID"] [] [])
                (World ["STAT:SET:DEV:GRPX:PSU:ACTN:RTOS:VALID"]
                   ["READ:DEV:GRPX:PSU:ACTN"] []))
      as (_ & _ & Hsend); [vm_compute; reflexivity..|].
    apply Hsend. intros [Hclamp _]. discriminate Hclamp.
Defined.

(** ** The field ramp rate *)

Section ramp_rate_facts.
Implicit Types (self : MercurySlavePS.t) (w : world).

Lemma param_get_run {A : Type} (get_cmd : M string)
    (get_parser : string -> result A) w :
  Param.get get_cmd get_parser w =
  match get_cmd w with
  | (Ok raw, w') => (get_parser raw, w')
  | (Raise e, w') => (Raise e, w')
  end.
Proof.
  unfold Param.get, mbind, M_bind, lift.
  by destruct (get_cmd w) as [[raw|e] w'].
Qed.

(** What the parser returns is a product with the caller's scale as
    its last factor. *)
Lemma signal_parser_product our_scaling response value :
  _signal_parser our_scaling response = Ok value ->
  exists figure, value = Float64.mul figure our_scaling.
Proof.
  unfold _signal_parser.
  destruct (Float64.of_string _) as [f|e]; [|done].
  intros [= <-]. by eexists.
Qed.

End ramp_rate_facts.

(** ** The target vector *)

Section target_facts.
Context {FieldVector : Type}.
Variable fv_new : FieldVector.
Variable fv_set_component :
  coordinate -> pyval -> FieldVector -> result unit * FieldVector.
Variable fv_get_component : FieldVector -> coordinate -> float.
Variable float_repr : float -> string.

Local Abbreviation run_set_target :=
  (MercuryiPS._set_target fv_new fv_set_component fv_get_component
     float_repr).

(** The clone is a new object: the pre-call store is only touched at
    the driver's own vector. *)
Lemma set_target_frame (self : MercuryiPS.t) c target
    (h : MercuryiPS.heap) (l : nat) :
  (l < MercuryiPS.next h)%nat -> l <> MercuryiPS._target_vector self ->
  MercuryiPS.obj (run_set_target self c target h).2 l = MercuryiPS.obj h l.
Proof.
  intros Hl Hne.
  unfold MercuryiPS._set_target, MercuryiPS.HBind, MercuryiPS.alloc,
    MercuryiPS.fv_copy, MercuryiPS.set_component,
    MercuryiPS.get_components. simpl.
  destruct (fv_set_component c target _) as [[[]|e] cand]; simpl.
  - destruct (negb _); simpl.
    + rewrite !fn_lookup_insert_ne by lia. done.
    + destruct (fv_set_component c target _) as [res v]; simpl.
      rewrite !fn_lookup_insert_ne by lia. done.
  - rewrite !fn_lookup_insert_ne by lia. done.
Qed.

Lemma set_target_run (self : MercuryiPS.t) c target (h : MercuryiPS.heap) :
  (MercuryiPS._target_vector self < MercuryiPS.next h)%nat ->
  let live := MercuryiPS.obj h (MercuryiPS._target_vector self) in
  let candidate := (fv_set_component c target live).2 in
  let after := run_set_target self c target h in
  MercuryiPS.obj after.2 (MercuryiPS.next h) = candidate
  /\ match (fv_set_component c target live).1 with
     | Ok _ =>
         if MercuryiPS._field_limits self
              (fv_get_component candidate x) (fv_get_component candidate y)
              (fv_get_component candidate z)
         then after.1 = Ok tt
              /\ MercuryiPS.obj after.2 (MercuryiPS._target_vector self)
                 = candidate
         else after.1
              = Raise (ValueError ("Cannot set " ++ coordinate_name c
                         ++ " target to " ++ format_value float_repr target
                         ++ ", that would violate the field_limits. "))
              /\ MercuryiPS.obj after.2 (MercuryiPS._target_vector self)
                 = live
     | Raise e =>
         after.1 = Raise e
         /\ MercuryiPS.obj after.2 (MercuryiPS._target_vector self) = live
     end.
Proof.
  intros Hlive live candidate after. subst after candidate.
  unfold MercuryiPS._set_target, MercuryiPS.HBind, MercuryiPS.alloc,
    MercuryiPS.fv_copy, MercuryiPS.set_component,
    MercuryiPS.get_components. simpl.
  rewrite !fn_lookup_insert.
  rewrite (fn_lookup_insert_ne _ (MercuryiPS.next h)) by lia.
  fold live.
  destruct (fv_set_component c target live) as [[[]|e] cand] eqn:Hset;
    simpl.
  - rewrite !fn_lookup_insert.
    destruct (MercuryiPS._field_limits self _ _ _); simpl.
    + rewrite !(fn_lookup_insert_ne _ (MercuryiPS.next h)) by lia.
      fold live. rewrite Hset. simpl.
      rewrite fn_lookup_insert.
      rewrite (fn_lookup_insert_ne _ (MercuryiPS._target_vector self)) by lia.
      by rewrite fn_lookup_insert.
    + rewrite fn_lookup_insert.
      by rewrite !(fn_lookup_insert_ne _ (MercuryiPS.next h)) by lia.
  - rewrite fn_lookup_insert.
    by rewrite !(fn_lookup_insert_ne _ (MercuryiPS.next h)) by lia.
Qed.

End target_facts.

(** C3: setting the target of a coordinate [c] to [v] clones the
    current target vector, applies the one change to the clone and asks
    the field-limit predicate about the clone's [x], [y] and [z].  If the
    predicate says no, a [ValueError] naming [c] and [v] is raised and
    the stored target vector is as it was before the call; if it says
    yes, the stored target vector becomes the candidate. *)
Theorem set_target_validates_then_commits {FieldVector : Type}
    (fv_new : FieldVector)
    (fv_set_component :
       coordinate -> pyval -> FieldVector -> result unit * FieldVector)
    (fv_get_component : FieldVector -> coordinate -> float)
    (float_repr : float -> string)
    (self : MercuryiPS.t) (c : coordinate) (v : pyval)
    (h : MercuryiPS.heap) :
  (MercuryiPS._target_vector self < MercuryiPS.next h)%nat ->
  let live := MercuryiPS.obj h (MercuryiPS._target_vector self) in
  let candidate := (fv_set_component c v live).2 in
  let admitted :=
    MercuryiPS._field_limits self
      (fv_get_component candidate x) (fv_get_component candidate y)
      (fv_get_component candidate z) in
  let after :=
    MercuryiPS._set_target fv_new fv_set_component fv_get_component
      float_repr self c v h in
  (fv_set_component c v live).1 = Ok tt ->
  MercuryiPS.obj after.2 (MercuryiPS.next h) = candidate
  /\ (admitted = false ->
      after.1 = Raise (ValueError ("Cannot set " ++ coordinate_name c
                         ++ " target to " ++ format_value float_repr v
                         ++ ", that would violate the field_limits. "))
      /\ forall l, (l < MercuryiPS.next h)%nat ->
                   MercuryiPS.obj after.2 l = MercuryiPS.obj h l)
  /\ (admitted = true ->
      after.1 = Ok tt
      /\ MercuryiPS.obj after.2 (MercuryiPS._target_vector self) = candidate
      /\ forall l, (l < MercuryiPS.next h)%nat ->
                   l <> MercuryiPS._target_vector self ->
                   MercuryiPS.obj after.2 l = MercuryiPS.obj h l).
Proof.
  intros Hlive live candidate admitted after Hset.
  destruct (set_target_run fv_new fv_set_component fv_get_component
              float_repr self c v h Hlive) as [Hclone Hrun].
  fold live in Hrun. rewrite Hset in Hrun. fold candidate admitted in Hrun.
  fold after in Hrun, Hclone.
  split; [exact Hclone|split]; intros Hadm; rewrite Hadm in Hrun.
  - destruct Hrun as [Hres Hobj]. split; [exact Hres|].
    intros l Hl.
    destruct (decide (l = MercuryiPS._target_vector self)) as [->|Hne];
      [exact Hobj|by apply set_target_frame].
  - destruct Hrun as [Hres Hobj]. split; [exact Hres|split; [exact Hobj|]].
    intros l Hl Hne. by apply set_target_frame.
Qed.

Lemma set_target_validates_then_commits_witness :
  let self := MercuryiPS.Driver Cartesian.unit_ball 0 in
  let h := MercuryiPS.Heap 1 (fun _ => Cartesian.new) in
  let two := VFloat (Float64.of_int 2) in
  let after :=
    MercuryiPS._set_target Cartesian.new Cartesian.set_component
      Cartesian.get_component (fun _ => "2.0") self x two h in
  after.1 = Raise (ValueError ("Cannot set x target to 2.0"
                     ++ ", that would violate the field_limits. "))
  /\ MercuryiPS.obj after.2 0%nat = Cartesian.new.
Proof.
  intros self h two after.
  destruct (set_target_validates_then_commits Cartesian.new
              Cartesian.set_component Cartesian.get_component
              (fun _ => "2.0") self x two h)
    as (_ & Hreject & _); [vm_compute; lia|reflexivity|].
  destruct Hreject as [Hres Hobj]; [reflexivity|].
  split; [exact Hres|]. apply (Hobj 0%nat). vm_compute. lia.
Defined.

(** ** The response parser *)

Section parser_facts.
Implicit Types (s t : string) (c : ascii).

Lemma slice_from_app t s : slice_from (String.length t) (t ++ s) = s.
Proof. induction t as [|c t IH]; [by destruct s|exact IH]. Qed.

Lemma scan_split s : s = scan_token s ++ scan_rest s.
Proof.
  induction s as [|c s IH]; [done|]. simpl.
  destruct (is_numchar c); [|done]. by rewrite append_cons, <- IH.
Qed.

Lemma filter_scan s :
  filter_chars is_numchar s
  = scan_token s ++ filter_chars is_numchar (scan_rest s).
Proof.
  induction s as [|c s IH]; [done|]. simpl.
  destruct (is_numchar c) eqn:Hc.
  - by rewrite append_cons, <- IH.
  - simpl. by rewrite Hc.
Qed.

(** The dictionary of SI prefixes, key by key. *)
Lemma scale_to_factor_lookup c s :
  match scale_to_factor !! c with
  | Some factor => factor
  | None => Float64.of_int 1
  end = instrument_scale (String c s).
Proof.
  destruct c as [[] [] [] [] [] [] [] []]; vm_compute; reflexivity.
Qed.

Lemma signal_parser_run our_scaling response :
  _signal_parser our_scaling response =
  let p := filter_chars (fun c => negb (Ascii.eqb c ":")) response in
  let digits := filter_chars is_numchar p in
  match Float64.of_string digits with
  | Ok f =>
      Ok (Float64.mul
            (Float64.mul f
               (instrument_scale (slice_from (String.length digits) p)))
            our_scaling)
  | Raise e => Raise e
  end.
Proof.
  unfold _signal_parser. rewrite response_preparser_filter. simpl.
  fold is_numchar.
  destruct (slice_from _ _) as [|c s]; [done|].
  by rewrite (scale_to_factor_lookup c s).
Qed.

(** [scan_decimal] accepts exactly the strings of digits with at most
    one point and at least one digit. *)
Lemma scan_decimal_accepts s (seen : bool) m nd fr :
  is_Some (Float64.scan_decimal s seen m nd fr) <->
  all_chars (fun c => is_digit c || Ascii.eqb c ".") s = true
  /\ (count_chars (fun c => Ascii.eqb c ".") s
      + (if seen then 1 else 0) <= 1)%nat
  /\ (1 <= nd + count_chars is_digit s)%nat.
Proof.
  revert seen m nd fr. induction s as [|c s IH]; intros seen m nd fr.
  - simpl. destruct nd, seen; simpl; split;
      try (intros [? [=]]); try (intros (_ & ? & ?)); try lia;
      try (split; [done|lia]); by eexists.
  - simpl. unfold is_digit at 1 3.
    destruct (Float64.digit_value c) as [d|] eqn:Hd.
    + assert (Ascii.eqb c "." = false) as ->.
      { destruct (Ascii.eqb_spec c "."); [by subst|done]. }
      rewrite IH. simpl. split; intros (? & ? & ?); split_and!; (done || lia).
    + destruct (Ascii.eqb c "."); simpl.
      * destruct seen; simpl.
        -- split; [intros [? [=]]|intros (_ & ? & _); lia].
        -- rewrite IH. split; intros (? & ? & ?); split_and!; (done || lia).
      * split; [intros [? [=]]|by intros [? _]].
Qed.

Lemma valid_real_body s :
  valid_real s = valid_unsigned (Float64.sign_and_body s).2.
Proof.
  destruct s as [|c s]; [done|].
  destruct c as [[] [] [] [] [] [] [] []]; reflexivity.
Qed.

Lemma valid_unsigned_spec s :
  valid_unsigned s = true <->
  all_chars (fun c => is_digit c || Ascii.eqb c ".") s = true
  /\ (count_chars (fun c => Ascii.eqb c ".") s <= 1)%nat
  /\ (1 <= count_chars is_digit s)%nat.
Proof.
  unfold valid_unsigned. rewrite !andb_true_iff, !bool_decide_eq_true.
  tauto.
Qed.

(** [float] accepts exactly the valid reals. *)
Lemma of_string_accepts s :
  (exists f, Float64.of_string s = Ok f) <-> valid_real s = true.
Proof.
  rewrite valid_real_body, valid_unsigned_spec. unfold Float64.of_string.
  destruct (Float64.sign_and_body s) as [sign body]. simpl.
  pose proof (scan_decimal_accepts body false 0 0 0) as H.
  simpl in H. rewrite Nat.add_0_r in H. rewrite <- H.
  destruct (Float64.scan_decimal body false 0 0 0) as [[m frac]|].
  - split; [by eexists|intros _; by eexists].
  - split; [by intros [? [=]]|by intros [? [=]]].
Qed.

Lemma of_string_rejects s :
  valid_real s = false ->
  Float64.of_string s
  = Raise (ValueError ("could not convert string to float: '" ++ s ++ "'")).
Proof.
  intros Hv. unfold Float64.of_string.
  destruct (Float64.sign_and_body s) as [sign body] eqn:Hsb.
  destruct (Float64.scan_decimal body false 0 0 0) as [[m frac]|] eqn:Hscan;
    [|done].
  assert (valid_real s = true) as Ht; [|congruence].
  apply of_string_accepts. unfold Float64.of_string.
  rewrite Hsb, Hscan. by eexists.
Qed.

End parser_facts.

(** C4 (as amended): for every reply in which, once the colons are
    removed, no digit, ['.'] or ['-'] stands behind the leading run of
    such characters, the parser takes that run as the numeric token and
    everything behind it as the scale-and-unit suffix; the result is
    [float(token)] times [1e-9], [1e-6], [1e-3], [1e3] or [1e6] when the
    suffix opens with [n], [u], [m], [k] or [M], times 1 otherwise, times
    the caller's scale. *)
Theorem signal_parser_scans (our_scaling : float) (response : string) :
  let colon_free := filter_chars (fun c => negb (Ascii.eqb c ":")) response in
  let token := scan_token colon_free in
  let suffix := scan_rest colon_free in
  filter_chars is_numchar suffix = "" ->
  _response_preparser response = colon_free
  /\ _signal_parser our_scaling response =
     match Float64.of_string token with
     | Ok f =>
         Ok (Float64.mul
               (Float64.mul f
                  match suffix with
                  | String "n" _ => Float64.of_decimal false 1 (-9)
                  | String "u" _ => Float64.of_decimal false 1 (-6)
                  | String "m" _ => Float64.of_decimal false 1 (-3)
                  | String "k" _ => Float64.of_decimal false 1 3
                  | String "M" _ => Float64.of_decimal false 1 6
                  | _ => Float64.of_int 1
                  end)
               our_scaling)
     | Raise e => Raise e
     end.
Proof.
  intros colon_free token suffix Hlead.
  split; [apply response_preparser_filter|].
  rewrite signal_parser_run. simpl. fold colon_free.
  rewrite (filter_scan colon_free). fold token suffix.
  rewrite Hlead, append_nil_r.
  pose proof (slice_from_app token suffix) as Hslice.
  unfold token at 2, suffix at 1 in Hslice.
  rewrite <- (scan_split colon_free) in Hslice.
  by rewrite Hslice.
Qed.

Lemma signal_parser_scans_witness :
  _signal_parser (Float64.of_int 1) ":12.345mA"
  = Float64.of_string "0.012345".
Proof.
  destruct (signal_parser_scans (Float64.of_int 1) ":12.345mA")
    as [_ Hparse];
    [vm_compute; reflexivity|].
  rewrite Hparse. vm_compute. reflexivity.
Defined.

(** The claim of C4 fails as it was worded: on [5A3m] the parser
    returns 53, with [53] as its token and [3m] as its suffix, whether
    the token is read as the leading run of numeric characters or as all
    of them. *)
Lemma signal_parser_scans_counterexample :
  _signal_parser (Float64.of_int 1) "5A3m" = Float64.of_string "53"
  /\ scan_parser (Float64.of_int 1) "5A3m" = Float64.of_string "5"
  /\ collect_parser (Float64.of_int 1) "5A3m" = Float64.of_string "0.053"
  /\ ~ (forall our_scaling response,
          _signal_parser our_scaling response
          = scan_parser our_scaling response)
  /\ ~ (forall our_scaling response,
          _signal_parser our_scaling response
          = collect_parser our_scaling response).
Proof.
  split_and!; try (vm_compute; reflexivity).
  - intros H. specialize (H (Float64.of_int 1) "5A3m").
    vm_compute in H. discriminate H.
  - intros H. specialize (H (Float64.of_int 1) "5A3m").
    vm_compute in H. discriminate H.
Qed.

(** C5: the parser returns 0.012345 for [12.345mA] with caller scale 1,
    -50.0 for [-3k] with caller scale [1/60], and 7.0 for [7] with
    caller scale 1.  The three values are written out in binary64:
    0.012345 is [7116407987185763 * 2^-59], 50 is
    [7036874417766400 * 2^-47] and 7 is [7881299347898368 * 2^-50]. *)
Theorem signal_parser_examples :
  _signal_parser (S754_finite false 4503599627370496 (-52)) "12.345mA"
  = Ok (S754_finite false 7116407987185763 (-59))
  /\ _signal_parser (S754_finite false 4803839602528529 (-58)) "-3k"
     = Ok (S754_finite true 7036874417766400 (-47))
  /\ _signal_parser (S754_finite false 4503599627370496 (-52)) "7"
     = Ok (S754_finite false 7881299347898368 (-50))
  /\ Float64.of_int 1 = S754_finite false 4503599627370496 (-52)
  /\ Float64.div (Float64.of_int 1) (Float64.of_int 60)
     = S754_finite false 4803839602528529 (-58).
Proof. split_and!; vm_compute; reflexivity. Qed.

(** C6: for every reply whose collected numeric token is empty or is
    not a valid real number, the parser fails with a [ValueError] and
    returns no value. *)
Theorem signal_parser_rejects (our_scaling : float) (response : string) :
  collected_token response = "" \/ valid_real (collected_token response) = false ->
  exists msg, _signal_parser our_scaling response = Raise (ValueError msg).
Proof.
  intros H.
  assert (valid_real (collected_token response) = false) as Hv.
  { destruct H as [->|H]; [reflexivity|exact H]. }
  rewrite signal_parser_run. simpl.
  unfold collected_token in Hv. rewrite response_preparser_filter in Hv.
  rewrite (of_string_rejects _ Hv). by eexists.
Qed.

Lemma signal_parser_rejects_witness :
  (exists msg, _signal_parser (Float64.of_int 1) ":T" = Raise (ValueError msg))
  /\ (exists msg, _signal_parser (Float64.of_int 1) "1.2.3T"
                  = Raise (ValueError msg)).
Proof.
  split.
  - apply (signal_parser_rejects (Float64.of_int 1) ":T").
    left. vm_compute. reflexivity.
  - apply (signal_parser_rejects (Float64.of_int 1) "1.2.3T").
    right. vm_compute. reflexivity.
Defined.

(** ** The field ramp rate, read and written *)

(** The caller's scale is the last factor of what the parser
    returns. *)
Lemma signal_parser_figure (our_scaling : float) (response : string) :
  _signal_parser our_scaling response =
  match reply_figure response with
  | Ok figure => Ok (Float64.mul figure our_scaling)
  | Raise e => Raise e
  end.
Proof.
  rewrite signal_parser_run. unfold reply_figure. cbv zeta.
  by destruct (Float64.of_string _).
Qed.

(** C8 (as amended): writing the field ramp rate sends the value
    multiplied by 60 in the SET command for [SIG:RFST]; reading it sends
    the READ command and parses the reply with the caller scale [1/60],
    so that the value reported is the per-minute figure of the reply
    multiplied by the binary64 value of [1/60], which is
    [4803839602528529 * 2^-58]. *)
Theorem field_ramp_rate_per_minute (float_repr : float -> string)
    (self : MercurySlavePS.t) (v : pyval) (w : world) :
  let uid := MercurySlavePS.uid self in
  let set := "SET:DEV:" ++ uid ++ ":PSU:SIG:RFST:"
             ++ format_value float_repr (times_60 v) in
  let read := "READ:DEV:" ++ uid ++ ":PSU:SIG:RFST" in
  let sixtieth := S754_finite false 4803839602528529 (-58) in
  let sixty := S754_finite false 8444249301319680 (-47) in
  sent (MercurySlavePS.field_ramp_rate_set float_repr self v w).2
  = (sent w ++ [set])%list
  /\ (forall f, times_60 (VFloat f) = VFloat (Float64.mul f sixty))
  /\ (forall n, times_60 (VInt n) = VInt (n * 60))
  /\ sent (MercurySlavePS.field_ramp_rate self w).2 = (sent w ++ [read])%list
  /\ (forall reply w1,
        MercuryiPS.ask read w = (Ok reply, w1) ->
        MercurySlavePS.field_ramp_rate self w
        = (_signal_parser sixtieth reply, w1)
        /\ _signal_parser sixtieth reply
           = match reply_figure reply with
             | Ok figure => Ok (Float64.mul figure sixtieth)
             | Raise e => Raise e
             end).
Proof.
  intros uid set read sixtieth sixty. split; [|split; [|split; [|split]]].
  - unfold MercurySlavePS.field_ramp_rate_set, Param.set.
    by rewrite param_setter_sent.
  - reflexivity.
  - reflexivity.
  - unfold MercurySlavePS.field_ramp_rate.
    rewrite param_get_run, param_getter_run, <- ask_sent.
    by destruct (MercuryiPS.ask _ w) as [[raw|e] w'].
  - intros reply w1 Hask. split.
    + unfold MercurySlavePS.field_ramp_rate.
      rewrite param_get_run, param_getter_run.
      change (read_line self "SIG:RFST") with read. by rewrite Hask.
    + apply signal_parser_figure.
Qed.

Lemma field_ramp_rate_per_minute_witness :
  MercurySlavePS.field_ramp_rate (MercurySlavePS.Channel "GRPX" "GRPX")
    (World ["STAT:DEV:GRPX:PSU:SIG:RFST:3.0000T/m"] [] [])
  = (Ok (S754_finite false 7205759403792794 (-57)),
     World [] ["READ:DEV:GRPX:PSU:SIG:RFST"] []).
Proof.
  destruct (field_ramp_rate_per_minute (fun _ => "")
              (MercurySlavePS.Channel "GRPX" "GRPX") (VInt 0)
              (World ["STAT:DEV:GRPX:PSU:SIG:RFST:3.0000T/m"] [] []))
    as (_ & _ & _ & _ & Hread).
  destruct (Hread ":3.0000T/m" (World [] ["READ:DEV:GRPX:PSU:SIG:RFST"] []))
    as [Hget _]; [reflexivity|].
  rewrite Hget. vm_compute. reflexivity.
Defined.

(** The claim of C8 fails as it was worded: on the reply
    [111.0000T/m] the figure is 111 and the value reported is
    1.8499999999999999, [8331659310635417 * 2^-52], while 111 divided by
    60 is 1.85, [8331659310635418 * 2^-52]. *)
Lemma field_ramp_rate_counterexample :
  let self := MercurySlavePS.Channel "GRPX" "GRPX" in
  let w := World ["STAT:DEV:GRPX:PSU:SIG:RFST:111.0000T/m"] [] [] in
  let sixty := S754_finite false 8444249301319680 (-47) in
  reply_figure ":111.0000T/m" = Ok (S754_finite false 7810930603720704 (-46))
  /\ (MercurySlavePS.field_ramp_rate self w).1
     = Ok (S754_finite false 8331659310635417 (-52))
  /\ Float64.div (S754_finite false 7810930603720704 (-46)) sixty
     = S754_finite false 8331659310635418 (-52)
  /\ ~ (forall self w reply w1 figure,
          MercurySlavePS._param_getter self "SIG:RFST" w = (Ok reply, w1) ->
          reply_figure reply = Ok figure ->
          (MercurySlavePS.field_ramp_rate self w).1
          = Ok (Float64.div figure sixty)).
Proof.
  intros self w sixty.
  split; [vm_compute; reflexivity|].
  split; [vm_compute; reflexivity|].
  split; [vm_compute; reflexivity|].
  intros H.
  specialize (H self w ":111.0000T/m"
                (World [] ["READ:DEV:GRPX:PSU:SIG:RFST"] [])
                (S754_finite false 7810930603720704 (-46))).
  vm_compute in H. specialize (H eq_refl eq_refl). discriminate H.
Qed.

(** * Further properties of the driver *)

(** ** More on strings *)

Section more_string_facts.
Implicit Types (s t u old : string) (c : ascii) (keep : ascii -> bool).

Lemma length_append s t :
  String.length (s ++ t) = (String.length s + String.length t)%nat.
Proof. induction s as [|c s IH]; [done|]. rewrite append_cons. simpl. by rewrite IH. Qed.

Lemma prefix_length s t :
  String.prefix s t = true -> (String.length s <= String.length t)%nat.
Proof.
  intros [u ->]%prefix_split. rewrite length_append. lia.
Qed.

(** A string cannot hold a longer one. *)
Lemma contains_longer old s :
  (String.length s < String.length old)%nat -> contains old s = false.
Proof.
  intros Hlen. destruct (contains old s) eqn:Hc; [|done].
  apply contains_spec in Hc as (p & q & ->).
  rewrite !length_append in Hlen. lia.
Qed.

Lemma append_same_length_inj s t p u :
  s ++ t = p ++ u -> String.length t = String.length u -> t = u.
Proof.
  revert p. induction s as [|c s IH]; intros p Heq Hlen.
  - rewrite append_nil_l in Heq. subst t. rewrite length_append in Hlen.
    destruct p as [|d p]; [done|]. simpl in Hlen. lia.
  - destruct p as [|d p].
    + rewrite append_nil_l in Heq. subst u.
      rewrite length_append in Hlen. simpl in Hlen. lia.
    + rewrite !append_cons in Heq. injection Heq as _ Heq. by eapply IH.
Qed.

(** Whether [s ++ t] ends with a string as long as [t] is decided by [t]. *)
Lemma endswith_same_length s t u :
  String.length t = String.length u -> t <> u -> endswith (s ++ t) u = false.
Proof.
  intros Hlen Hne. destruct (endswith (s ++ t) u) eqn:He; [|done].
  apply endswith_spec in He as [p He].
  destruct Hne. by eapply append_same_length_inj.
Qed.

Lemma filter_chars_app keep s t :
  filter_chars keep (s ++ t) = filter_chars keep s ++ filter_chars keep t.
Proof.
  induction s as [|c s IH]; [done|]. rewrite append_cons. simpl.
  destruct (keep c); [|done]. by rewrite append_cons, IH.
Qed.

Lemma filter_chars_all keep s :
  all_chars keep s = true -> filter_chars keep s = s.
Proof.
  induction s as [|c s IH]; [done|]. simpl.
  intros [-> Hs]%andb_true_iff. by rewrite IH.
Qed.

Lemma filter_chars_free keep s :
  free_of keep s = true -> filter_chars keep s = "".
Proof.
  unfold free_of. induction s as [|c s IH]; [done|]. simpl.
  intros [Hc Hs]%andb_true_iff. apply negb_true_iff in Hc as ->. by apply IH.
Qed.

Lemma filter_chars_keeps_only keep s :
  all_chars keep (filter_chars keep s) = true.
Proof.
  induction s as [|c s IH]; [done|]. simpl.
  destruct (keep c) eqn:Hc; [|done]. simpl. by rewrite Hc.
Qed.

Lemma count_chars_filtered keep s :
  count_chars keep (filter_chars (fun c => negb (keep c)) s) = 0%nat.
Proof.
  induction s as [|c s IH]; [done|]. simpl.
  destruct (keep c) eqn:Hc; simpl; [done|]. by rewrite Hc.
Qed.

Lemma free_of_contains c s :
  free_of (Ascii.eqb c) s = true <-> contains (String c "") s = false.
Proof.
  unfold free_of. induction s as [|d s IH].
  - by rewrite contains_nil.
  - rewrite contains_cons, prefix_cons, prefix_nil, andb_true_r. simpl.
    rewrite andb_true_iff, orb_false_iff, negb_true_iff, <- IH. clear IH.
    destruct (Ascii.eqb_spec c d) as [->|Hne].
    + rewrite bool_decide_eq_true_2 by done. split; [by intros [? _]|by intros [? _]].
    + rewrite bool_decide_eq_false_2 by done. tauto.
Qed.

(** Splitting at a separator splits the parts on either side of it. *)
Lemma split_app sep s t :
  split sep (s ++ String sep t) = (split sep s ++ split sep t)%list.
Proof.
  induction s as [|c s IH].
  - rewrite append_nil_l. simpl. by rewrite Ascii.eqb_refl.
  - rewrite append_cons. simpl. rewrite IH.
    destruct (Ascii.eqb c sep); [done|].
    pose proof (split_nonempty sep s).
    by destruct (split sep s).
Qed.

Lemma split_free sep s :
  free_of (Ascii.eqb sep) s = true -> split sep s = [s].
Proof.
  unfold free_of. induction s as [|c s IH]; [done|]. simpl.
  intros [Hc Hs]%andb_true_iff. apply negb_true_iff in Hc.
  rewrite Ascii.eqb_sym, Hc. by rewrite IH.
Qed.

(** Splitting undoes joining, for fields without the separator. *)
Lemma split_concat sep f fields :
  Forall (fun s => free_of (Ascii.eqb sep) s = true) (f :: fields) ->
  split sep (String.concat (String sep "") (f :: fields)) = f :: fields.
Proof.
  revert f. induction fields as [|g fields IH]; intros f Hall.
  - apply split_free. by inversion Hall.
  - change (String.concat (String sep "") (f :: g :: fields))
      with (f ++ String sep (String.concat (String sep "") (g :: fields))).
    inversion Hall as [|? ? Hf Hrest]; subst.
    by rewrite split_app, IH, split_free.
Qed.

Lemma second_to_last_app {A : Type} (l : list A) (a b : A) :
  second_to_last (l ++ [a; b]) = Some a.
Proof.
  induction l as [|d l IH]; [done|].
  change ((d :: l) ++ [a; b])%list with (d :: (l ++ [a; b]))%list.
  rewrite second_to_last_cons; [done|]. rewrite length_app. simpl. lia.
Qed.

End more_string_facts.

(** ** More on the response parser *)

Section more_parser_facts.
Implicit Types (s t u : string) (c : ascii).

Lemma filter_chars_ext (f g : ascii -> bool) s :
  (forall c, f c = g c) -> filter_chars f s = filter_chars g s.
Proof.
  intros Hfg. induction s as [|c s IH]; [done|]. simpl.
  by rewrite Hfg, IH.
Qed.

Lemma filter_chars_cons (f : ascii -> bool) c s :
  filter_chars f (String c s)
  = if f c then String c (filter_chars f s) else filter_chars f s.
Proof. reflexivity. Qed.

Lemma all_chars_impl (f g : ascii -> bool) s :
  (forall c, f c = true -> g c = true) ->
  all_chars f s = true -> all_chars g s = true.
Proof.
  intros Hfg. induction s as [|c s IH]; [done|]. simpl.
  intros [Hc Hs]%andb_true_iff. by rewrite (Hfg _ Hc), IH.
Qed.

Lemma numchar_not_colon c : is_numchar c = true -> negb (Ascii.eqb c ":") = true.
Proof. destruct (Ascii.eqb_spec c ":") as [->|]; [by vm_compute|done]. Qed.

(** The parser on a numeric run followed by at least one other
    character. *)
Lemma signal_parser_leading our_scaling tok c u :
  all_chars is_numchar tok = true ->
  is_numchar c = false -> c <> ":"%char ->
  free_of (fun d => is_numchar d || is_colon d) u = true ->
  _signal_parser our_scaling (tok ++ String c u) =
  match Float64.of_string tok with
  | Ok f =>
      Ok (Float64.mul (Float64.mul f (instrument_scale (String c "")))
            our_scaling)
  | Raise e => Raise e
  end.
Proof.
  intros Htok Hc Hcolon Hu.
  assert (free_of is_numchar u = true) as Hnum.
  { revert Hu. apply all_chars_impl. intros d Hd.
    apply negb_true_iff, orb_false_iff in Hd as [-> _]. done. }
  assert (all_chars (fun d => negb (Ascii.eqb d ":")) u = true) as Hcol.
  { revert Hu. apply all_chars_impl. intros d Hd.
    apply negb_true_iff, orb_false_iff in Hd as [_ Hd]. unfold is_colon in Hd.
    by rewrite Hd. }
  rewrite signal_parser_run. cbv zeta.
  rewrite (filter_chars_all (fun d => negb (Ascii.eqb d ":"))).
  - rewrite filter_chars_app, filter_chars_cons, Hc.
    rewrite (filter_chars_all _ _ Htok), (filter_chars_free _ _ Hnum).
    rewrite append_nil_r, slice_from_app.
    by rewrite <- (scale_to_factor_lookup c u), <- (scale_to_factor_lookup c "").
  - clear Hu Hnum. induction tok as [|d tok IH].
    + rewrite append_nil_l. simpl. rewrite Hcol.
      destruct (Ascii.eqb_spec c ":"); done.
    + rewrite append_cons. simpl in *.
      apply andb_true_iff in Htok as [Hd Htok].
      by rewrite (numchar_not_colon _ Hd), IH.
Qed.

End more_parser_facts.

(** X1: the pre-parser drops the colons and nothing else: its result
    is the reply with every character but the colons kept, in order.
    So the result holds no colon, a colon-free reply comes back as it
    is, and a reply is worked through piece by piece. *)
Theorem response_preparser_colons (s : string) :
  _response_preparser s = filter_chars (fun c => negb (Ascii.eqb c ":")) s
  /\ contains ":" (_response_preparser s) = false
  /\ (contains ":" s = false -> _response_preparser s = s)
  /\ forall t, _response_preparser (s ++ t)
               = _response_preparser s ++ _response_preparser t.
Proof.
  split; [apply response_preparser_filter|]. split; [|split].
  - rewrite response_preparser_filter.
    destruct (contains ":" _) eqn:Hc; [|done].
    apply contains_char_count in Hc.
    rewrite (filter_chars_ext _ (fun c => negb (Ascii.eqb ":" c))) in Hc
      by (intros c; by rewrite Ascii.eqb_sym).
    rewrite count_chars_filtered in Hc. lia.
  - intros H. by apply replace_absent.
  - intros t. by rewrite !response_preparser_filter, filter_chars_app.
Qed.

Lemma response_preparser_colons_witness :
  _response_preparser "0.0312T" = "0.0312T".
Proof.
  destruct (response_preparser_colons "0.0312T") as (_ & _ & Hsame & _).
  apply Hsame. reflexivity.
Defined.

(** X2: a colon makes no difference to the parser, wherever it stands
    in the reply. *)
Theorem signal_parser_ignores_colons (our_scaling : float) (a b : string) :
  _signal_parser our_scaling (a ++ ":" ++ b)
  = _signal_parser our_scaling (a ++ b).
Proof.
  unfold _signal_parser.
  by rewrite !response_preparser_filter, !filter_chars_app.
Qed.

(** X3: the parser returns a value exactly when the numeric characters
    of the reply, taken together, are a valid real number. *)
Theorem signal_parser_accepts (our_scaling : float) (response : string) :
  (exists value, _signal_parser our_scaling response = Ok value)
  <-> valid_real (collected_token response) = true.
Proof.
  rewrite <- of_string_accepts, signal_parser_run. simpl.
  unfold collected_token. rewrite response_preparser_filter.
  destruct (Float64.of_string _) as [f|e].
  - split; intros _; by eexists.
  - split; intros [? [=]].
Qed.

(** X4: behind a numeric run, only the first character counts: the rest
    of the unit text does not change the value. *)
Theorem signal_parser_unit_ignored (our_scaling : float)
    (tok : string) (c : ascii) (u : string) :
  all_chars is_numchar tok = true ->
  is_numchar c = false -> c <> ":"%char ->
  free_of (fun d => is_numchar d || is_colon d) u = true ->
  _signal_parser our_scaling (tok ++ String c u)
  = _signal_parser our_scaling (tok ++ String c "").
Proof.
  intros Htok Hc Hcolon Hu.
  rewrite (signal_parser_leading _ _ _ u) by done.
  by rewrite (signal_parser_leading _ _ _ "") by done.
Qed.

Lemma signal_parser_unit_ignored_witness :
  _signal_parser (Float64.of_int 1) "12.5mT/min"
  = _signal_parser (Float64.of_int 1) "12.5m".
Proof.
  apply (signal_parser_unit_ignored (Float64.of_int 1) "12.5" "m" "T/min");
    [vm_compute; reflexivity|vm_compute; reflexivity|discriminate
    |vm_compute; reflexivity].
Defined.

(** ** More on the reply classification *)

Section more_ask_facts.
Implicit Types (c r s : string) (rest snt errs : list string).

Lemma free_of_colon s :
  free_of is_colon s = true -> free_of (Ascii.eqb ":") s = true.
Proof.
  apply all_chars_impl. intros c. unfold is_colon.
  by rewrite Ascii.eqb_sym.
Qed.

Lemma free_of_filter (keep f : ascii -> bool) s :
  free_of keep s = true -> free_of keep (filter_chars f s) = true.
Proof.
  unfold free_of. induction s as [|c s IH]; [done|]. simpl.
  intros [Hc Hs]%andb_true_iff. destruct (f c); simpl; [|by apply IH].
  by rewrite Hc, IH.
Qed.

(** The command of a dressed READ without its [READ:]. *)
Lemma read_line_base (self : MercurySlavePS.t) (get_cmd : string) :
  contains "READ:" ("DEV:" ++ MercurySlavePS.uid self ++ ":PSU:" ++ get_cmd)
  = false ->
  "STAT:" ++ replace "READ:" "" (read_line self get_cmd)
  = echo_of self get_cmd.
Proof.
  intros H.
  change (read_line self get_cmd)
    with ("READ:" ++ ("DEV:" ++ MercurySlavePS.uid self ++ ":PSU:" ++ get_cmd)).
  by rewrite replace_leading.
Qed.

(** A READ whose reply opens with the echo hands back what follows. *)
Lemma param_getter_echo (self : MercurySlavePS.t) (get_cmd payload : string)
    rest snt errs :
  let r := echo_of self get_cmd ++ payload in
  contains "READ:" ("DEV:" ++ MercurySlavePS.uid self ++ ":PSU:" ++ get_cmd)
  = false ->
  contains "INVALID" r = false -> endswith r "VALID" = false ->
  contains (echo_of self get_cmd) payload = false ->
  MercurySlavePS._param_getter self get_cmd (World (r :: rest) snt errs)
  = (Ok payload, World rest (snt ++ [read_line self get_cmd]) errs).
Proof.
  intros r Hread Hinv Hval Hecho.
  rewrite param_getter_run, ask_run, Hinv, Hval.
  rewrite (read_line_base _ _ Hread). subst r.
  rewrite replace_leading; [done| |done].
  unfold echo_of. discriminate.
Qed.

(** A READ whose reply holds [INVALID] hands back the reply itself. *)
Lemma param_getter_invalid (self : MercurySlavePS.t) (get_cmd r : string)
    rest snt errs :
  contains "INVALID" r = true ->
  MercurySlavePS._param_getter self get_cmd (World (r :: rest) snt errs)
  = (Ok r, World rest (snt ++ [read_line self get_cmd])
             (errs ++ ["Invalid command. Got response: " ++ r])).
Proof. intros H. by rewrite param_getter_run, ask_run, H. Qed.

Lemma signal_parser_no_token our_scaling response :
  free_of is_numchar response = true ->
  _signal_parser our_scaling response
  = Raise (ValueError "could not convert string to float: ''").
Proof.
  intros H. rewrite signal_parser_run. cbv zeta.
  by rewrite (filter_chars_free is_numchar) by by apply free_of_filter.
Qed.

End more_ask_facts.

Ltac unfold_numeric_read :=
  unfold MercurySlavePS.voltage, MercurySlavePS.current,
    MercurySlavePS.current_persistent, MercurySlavePS.current_target,
    MercurySlavePS.field_target, MercurySlavePS.current_ramp_rate,
    MercurySlavePS.field_ramp_rate, MercurySlavePS.field,
    MercurySlavePS.field_persistent, MercurySlavePS.ATOB.

(** X5: one call of [ask] is one exchange: it consumes one reply and
    writes the command once.  It logs exactly when the reply holds
    [INVALID] and raises only [IndexError], only on a colon-free reply
    that ends with [VALID]. *)
Theorem ask_round_trip (c r : string) (rest snt errs : list string) :
  let after := MercuryiPS.ask c (World (r :: rest) snt errs) in
  let logged := "Invalid command. Got response: " ++ r in
  replies after.2 = rest
  /\ sent after.2 = (snt ++ [c])%list
  /\ errors after.2
     = (if contains "INVALID" r then errs ++ [logged] else errs)%list
  /\ forall e, after.1 = Raise e ->
       e = IndexError /\ contains "INVALID" r = false
       /\ endswith r "VALID" = true /\ contains ":" r = false.
Proof.
  intros after logged. subst after logged. rewrite ask_run.
  destruct (contains "INVALID" r) eqn:Hinv; [by split_and!|].
  destruct (endswith r "VALID") eqn:Hval; [|by split_and!].
  split_and!; [done..|]. simpl. rewrite getitem_neg_2. intros e He.
  destruct (contains ":" r) eqn:Hcolon.
  - destruct (colon_second_to_last r Hcolon) as [field Hf].
    by rewrite Hf in He.
  - destruct (second_to_last _); by simplify_eq.
Qed.

(** X6: on a SET acknowledgment, what [ask] returns is the text between
    the last two colons of the reply. *)
Theorem ask_acknowledged_value (c head value last : string)
    (rest snt errs : list string) :
  let r := head ++ ":" ++ value ++ ":" ++ last in
  free_of is_colon value = true -> free_of is_colon last = true ->
  contains "INVALID" r = false -> endswith r "VALID" = true ->
  MercuryiPS.ask c (World (r :: rest) snt errs)
  = (Ok value, World rest (snt ++ [c]) errs).
Proof.
  intros r Hvalue Hlast Hinv Hval. rewrite ask_run, Hinv, Hval.
  rewrite getitem_neg_2. subst r.
  change (head ++ ":" ++ value ++ ":" ++ last)
    with (head ++ String ":" (value ++ String ":" last)).
  rewrite !split_app, (split_free _ value), (split_free _ last)
    by by apply free_of_colon.
  change ([value] ++ [last])%list with [value; last].
  by rewrite second_to_last_app.
Qed.

Lemma ask_acknowledged_value_witness :
  MercuryiPS.ask "SET:DEV:GRPZ:PSU:SIG:RFST:0.3"
    (World ["STAT:SET:DEV:GRPZ:PSU:SIG:RFST:0.3000:VALID"] [] [])
  = (Ok "0.3000", World [] ["SET:DEV:GRPZ:PSU:SIG:RFST:0.3"] []).
Proof.
  apply (ask_acknowledged_value "SET:DEV:GRPZ:PSU:SIG:RFST:0.3"
           "STAT:SET:DEV:GRPZ:PSU:SIG:RFST" "0.3000" "VALID" [] [] []);
    reflexivity.
Defined.

(** X7: a reply that is neither rejected nor an acknowledgment and does
    not hold the echo of the command, as for [*IDN?], is returned as it
    is. *)
Theorem ask_without_echo (c r : string) (rest snt errs : list string) :
  contains "INVALID" r = false -> endswith r "VALID" = false ->
  contains ("STAT:" ++ replace "READ:" "" c) r = false ->
  MercuryiPS.ask c (World (r :: rest) snt errs)
  = (Ok r, World rest (snt ++ [c]) errs).
Proof.
  intros Hinv Hval Hecho. rewrite ask_run, Hinv, Hval.
  by rewrite replace_absent.
Qed.

Lemma ask_without_echo_witness :
  MercuryiPS.ask "*IDN?"
    (World ["IDN:OXFORD INSTRUMENTS:MERCURY IPS:1234:2.3.4"] [] [])
  = (Ok "IDN:OXFORD INSTRUMENTS:MERCURY IPS:1234:2.3.4",
     World [] ["*IDN?"] []).
Proof.
  apply (ask_without_echo "*IDN?"
           "IDN:OXFORD INSTRUMENTS:MERCURY IPS:1234:2.3.4" [] [] []);
    reflexivity.
Defined.

(** X8: [_param_getter] dresses the command as [READ:DEV:uid:PSU:cmd];
    when the reply opens with the echo [STAT:DEV:uid:PSU:cmd], it hands
    back what follows the echo. *)
Theorem param_getter_strips_echo (self : MercurySlavePS.t)
    (get_cmd payload : string) (rest snt errs : list string) :
  let uid := MercurySlavePS.uid self in
  let echo := "STAT:DEV:" ++ uid ++ ":PSU:" ++ get_cmd in
  let r := echo ++ payload in
  contains "READ:" ("DEV:" ++ uid ++ ":PSU:" ++ get_cmd) = false ->
  contains "INVALID" r = false -> endswith r "VALID" = false ->
  contains echo payload = false ->
  MercurySlavePS._param_getter self get_cmd (World (r :: rest) snt errs)
  = (Ok payload,
     World rest (snt ++ ["READ:DEV:" ++ uid ++ ":PSU:" ++ get_cmd]) errs).
Proof. intros uid echo r. apply param_getter_echo. Qed.

Lemma param_getter_strips_echo_witness :
  MercurySlavePS._param_getter (MercurySlavePS.Channel "GRPY" "GRPY")
    "SIG:VOLT" (World ["STAT:DEV:GRPY:PSU:SIG:VOLT:0.0532V"] [] [])
  = (Ok ":0.0532V", World [] ["READ:DEV:GRPY:PSU:SIG:VOLT"] []).
Proof.
  apply (param_getter_strips_echo (MercurySlavePS.Channel "GRPY" "GRPY")
           "SIG:VOLT" ":0.0532V" [] [] []); reflexivity.
Defined.

(** X9: each numeric parameter of a sub-supply is read by one READ of
    its own command, and on a reply that opens with the echo the value
    is the parse of what follows, with scale 1, or [1/60] for the two
    ramp rates. *)
Theorem numeric_read_parses_payload
    (get : MercurySlavePS.t -> M float) (get_cmd : string) (scale : float)
    (self : MercurySlavePS.t) (payload : string)
    (rest snt errs : list string) :
  (get, get_cmd, scale) ∈ numeric_reads ->
  let uid := MercurySlavePS.uid self in
  let echo := "STAT:DEV:" ++ uid ++ ":PSU:" ++ get_cmd in
  let r := echo ++ payload in
  contains "READ:" ("DEV:" ++ uid ++ ":PSU:" ++ get_cmd) = false ->
  contains "INVALID" r = false -> endswith r "VALID" = false ->
  contains echo payload = false ->
  get self (World (r :: rest) snt errs)
  = (_signal_parser scale payload,
     World rest (snt ++ ["READ:DEV:" ++ uid ++ ":PSU:" ++ get_cmd]) errs).
Proof.
  intros Hin uid echo r Hread Hinv Hval Hecho.
  pose proof (param_getter_echo self get_cmd payload rest snt errs
                Hread Hinv Hval Hecho) as Hget.
  cbv zeta in Hget. unfold echo_of, read_line in Hget.
  clear Hread Hinv Hval Hecho. subst uid echo r.
  unfold numeric_reads in Hin.
  repeat (apply elem_of_cons in Hin as [Hin|Hin];
          [injection Hin as -> -> ->; unfold_numeric_read;
           by (rewrite param_get_run, Hget)|]).
  by apply elem_of_nil in Hin.
Qed.

Lemma numeric_read_parses_payload_witness :
  MercurySlavePS.field (MercurySlavePS.Channel "GRPX" "GRPX")
    (World ["STAT:DEV:GRPX:PSU:SIG:FLD:-0.2500T"] [] [])
  = (Float64.of_string "-0.25", World [] ["READ:DEV:GRPX:PSU:SIG:FLD"] []).
Proof.
  refine (eq_trans
            (numeric_read_parses_payload MercurySlavePS.field "SIG:FLD"
               MercurySlavePS.one (MercurySlavePS.Channel "GRPX" "GRPX")
               ":-0.2500T" [] [] [] _ _ _ _ _) _);
    try reflexivity.
  unfold numeric_reads. do 7 apply list_elem_of_further.
  apply list_elem_of_here.
Defined.

(** X10: when the instrument rejects the READ of a numeric parameter
    with a reply that holds [INVALID] and no digit, ['.'] or ['-'], the
    reply is logged once and the read fails with the [ValueError] of the
    parser. *)
Theorem numeric_read_rejected
    (get : MercurySlavePS.t -> M float) (get_cmd : string) (scale : float)
    (self : MercurySlavePS.t) (r : string) (rest snt errs : list string) :
  (get, get_cmd, scale) ∈ numeric_reads ->
  contains "INVALID" r = true -> free_of is_numchar r = true ->
  get self (World (r :: rest) snt errs)
  = (Raise (ValueError "could not convert string to float: ''"),
     World rest
       (snt ++ ["READ:DEV:" ++ MercurySlavePS.uid self ++ ":PSU:" ++ get_cmd])
       (errs ++ ["Invalid command. Got response: " ++ r])).
Proof.
  intros Hin Hinv Hnum.
  pose proof (param_getter_invalid self get_cmd r rest snt errs Hinv) as Hget.
  pose proof (signal_parser_no_token scale r Hnum) as Hparse.
  unfold read_line in Hget. unfold numeric_reads in Hin.
  repeat (apply elem_of_cons in Hin as [Hin|Hin];
          [injection Hin as -> -> ->; unfold_numeric_read;
           by (rewrite param_get_run, Hget, Hparse)|]).
  by apply elem_of_nil in Hin.
Qed.

Lemma numeric_read_rejected_witness :
  MercurySlavePS.current (MercurySlavePS.Channel "GRPX" "GRPX")
    (World ["STAT:DEV:GRPX:PSU:SIG:CURR:INVALID"] [] [])
  = (Raise (ValueError "could not convert string to float: ''"),
     World [] ["READ:DEV:GRPX:PSU:SIG:CURR"]
       ["Invalid command. Got response: STAT:DEV:GRPX:PSU:SIG:CURR:INVALID"]).
Proof.
  apply (numeric_read_rejected MercurySlavePS.current "SIG:CURR"
           MercurySlavePS.one (MercurySlavePS.Channel "GRPX" "GRPX")
           "STAT:DEV:GRPX:PSU:SIG:CURR:INVALID" [] [] []);
    [|reflexivity|vm_compute; reflexivity].
  unfold numeric_reads. apply list_elem_of_further, list_elem_of_here.
Defined.

(** X11: a write that the instrument rejects, with a reply that holds
    [INVALID], is logged and returns normally: the caller is not told. *)
Theorem param_setter_rejected (float_repr : float -> string)
    (self : MercurySlavePS.t) (set_cmd : string) (value : pyval)
    (r : string) (rest snt errs : list string) :
  contains "INVALID" r = true ->
  MercurySlavePS._param_setter float_repr self set_cmd value
    (World (r :: rest) snt errs)
  = (Ok tt,
     World rest
       (snt ++ ["SET:DEV:" ++ MercurySlavePS.uid self ++ ":PSU:" ++ set_cmd
                ++ ":" ++ format_value float_repr value])
       (errs ++ ["Invalid command. Got response: " ++ r])).
Proof. intros H. by rewrite param_setter_run, ask_run, H. Qed.

Lemma param_setter_rejected_witness :
  MercurySlavePS._param_setter (fun _ => "") (MercurySlavePS.Channel "GRPX" "GRPX")
    "SIG:FSET" (VInt 99)
    (World ["STAT:SET:DEV:GRPX:PSU:SIG:FSET:99:INVALID"] [] [])
  = (Ok tt,
     World [] ["SET:DEV:GRPX:PSU:SIG:FSET:99"]
       ["Invalid command. Got response: "
        ++ "STAT:SET:DEV:GRPX:PSU:SIG:FSET:99:INVALID"]).
Proof.
  apply (param_setter_rejected (fun _ => "")
           (MercurySlavePS.Channel "GRPX" "GRPX") "SIG:FSET" (VInt 99)
           "STAT:SET:DEV:GRPX:PSU:SIG:FSET:99:INVALID" [] [] []).
  reflexivity.
Defined.

(** ** More on the ramp status *)

Section more_ramp_facts.
Implicit Types (self : MercurySlavePS.t) (w : world).

(** The four entries of the value mapping. *)
Lemma ramp_val_mapping_entries (value tok : string) :
  MercurySlavePS.ramp_val_mapping !! value = Some tok ->
  (value = "HOLD" /\ tok = "HOLD") \/ (value = "TO SET" /\ tok = "RTOS")
  \/ (value = "CLAMP" /\ tok = "CLMP") \/ (value = "TO ZERO" /\ tok = "RTOZ").
Proof.
  unfold MercurySlavePS.ramp_val_mapping. intros H.
  repeat (apply lookup_insert_Some in H as [[<- <-]|[_ H]];
          [tauto|]).
  by rewrite lookup_empty in H.
Qed.

Lemma filter_contains (f : ascii -> bool) (old s : string) :
  all_chars f old = true -> contains old s = true ->
  contains old (filter_chars f s) = true.
Proof.
  intros Hold (p & q & ->)%contains_spec. apply contains_spec.
  exists (filter_chars f p), (filter_chars f q).
  by rewrite !filter_chars_app, (filter_chars_all f old).
Qed.

(** No token of the mapping is a rejected reply. *)
Lemma ramp_decode_invalid (r : string) :
  contains "INVALID" r = true ->
  Param.inverse MercurySlavePS.ramp_val_mapping !! _response_preparser r = None.
Proof.
  intros Hinv.
  destruct (Param.inverse _ !! _) as [value|] eqn:Hdec; [|done].
  apply inverse_lookup, ramp_val_mapping_entries in Hdec.
  assert (contains "INVALID" (_response_preparser r) = true) as Hc.
  { rewrite response_preparser_filter. by apply filter_contains. }
  destruct Hdec as [[_ Ht]|[[_ Ht]|[[_ Ht]|[_ Ht]]]];
    rewrite Ht in Hc; by vm_compute in Hc.
Qed.

End more_ramp_facts.

(** X12: the value mapping of the ramp status holds exactly the four
    pairs HOLD/HOLD, TO SET/RTOS, CLAMP/CLMP and TO ZERO/RTOZ, and it is
    one to one: a status is sent as a token exactly when that token is
    read back as the status. *)
Theorem ramp_val_mapping_round_trip (value tok : string) :
  (MercurySlavePS.ramp_val_mapping !! value = Some tok
   <-> (value = "HOLD" /\ tok = "HOLD") \/ (value = "TO SET" /\ tok = "RTOS")
       \/ (value = "CLAMP" /\ tok = "CLMP")
       \/ (value = "TO ZERO" /\ tok = "RTOZ"))
  /\ (MercurySlavePS.ramp_val_mapping !! value = Some tok
      <-> Param.inverse MercurySlavePS.ramp_val_mapping !! tok = Some value).
Proof.
  split; split.
  - apply ramp_val_mapping_entries.
  - intros [[-> ->]|[[-> ->]|[[-> ->]|[-> ->]]]]; vm_compute; reflexivity.
  - intros H%ramp_val_mapping_entries.
    destruct H as [[-> ->]|[[-> ->]|[[-> ->]|[-> ->]]]];
      vm_compute; reflexivity.
  - apply inverse_lookup.
Qed.

(** X13: a read of the ramp status that returns, returns one of the
    four statuses, and the colon-free reply was its token. *)
Theorem ramp_status_range (self : MercurySlavePS.t) (w w1 : world)
    (status : string) :
  MercurySlavePS.ramp_status self w = (Ok status, w1) ->
  status ∈ ["HOLD"; "TO SET"; "CLAMP"; "TO ZERO"]
  /\ exists raw,
       MercurySlavePS._param_getter self "ACTN" w = (Ok raw, w1)
       /\ MercurySlavePS.ramp_val_mapping !! status
          = Some (_response_preparser raw).
Proof.
  unfold MercurySlavePS.ramp_status. rewrite get_mapped_run.
  destruct (MercurySlavePS._param_getter self "ACTN" w) as [[raw|e] w']; [|done].
  destruct (Param.inverse _ !! _) as [value|] eqn:Hdec; [|done].
  intros [= -> ->]. apply inverse_lookup in Hdec. split; [|by exists raw].
  apply ramp_val_mapping_entries in Hdec.
  destruct Hdec as [[-> _]|[[-> _]|[[-> _]|[-> _]]]];
    repeat first [apply list_elem_of_here|apply list_elem_of_further].
Qed.

Lemma ramp_status_range_witness :
  "TO ZERO" ∈ ["HOLD"; "TO SET"; "CLAMP"; "TO ZERO"].
Proof.
  apply (ramp_status_range (MercurySlavePS.Channel "GRPZ" "GRPZ")
           (World ["STAT:DEV:GRPZ:PSU:ACTN:RTOZ"] [] [])
           (World [] ["READ:DEV:GRPZ:PSU:ACTN"] []) "TO ZERO").
  vm_compute. reflexivity.
Defined.

(** X14: when the instrument answers the READ of [ACTN] with the echo
    and the token of a status, the ramp status read is that status. *)
Theorem ramp_status_decodes (self : MercurySlavePS.t) (value tok : string)
    (rest snt errs : list string) :
  let uid := MercurySlavePS.uid self in
  let r := "STAT:DEV:" ++ uid ++ ":PSU:ACTN" ++ ":" ++ tok in
  MercurySlavePS.ramp_val_mapping !! value = Some tok ->
  contains "READ:" ("DEV:" ++ uid ++ ":PSU:ACTN") = false ->
  contains "INVALID" r = false ->
  MercurySlavePS.ramp_status self (World (r :: rest) snt errs)
  = (Ok value, World rest (snt ++ ["READ:DEV:" ++ uid ++ ":PSU:ACTN"]) errs).
Proof.
  intros uid r Hmap Hread Hinv.
  assert (r = echo_of self "ACTN" ++ (":" ++ tok)) as Hr.
  { unfold r, echo_of. fold uid. by rewrite !append_assoc. }
  pose proof (ramp_val_mapping_entries _ _ Hmap) as Hentry.
  unfold MercurySlavePS.ramp_status. rewrite get_mapped_run, Hr.
  rewrite (param_getter_echo self "ACTN" (":" ++ tok)).
  - destruct Hentry as [[-> ->]|[[-> ->]|[[-> ->]|[-> ->]]]];
      reflexivity.
  - exact Hread.
  - by rewrite <- Hr.
  - destruct Hentry as [[_ ->]|[[_ ->]|[[_ ->]|[_ ->]]]];
      by apply endswith_same_length.
  - apply contains_longer. unfold echo_of.
    destruct Hentry as [[_ ->]|[[_ ->]|[[_ ->]|[_ ->]]]];
      rewrite !length_append; simpl; lia.
Qed.

Lemma ramp_status_decodes_witness :
  MercurySlavePS.ramp_status (MercurySlavePS.Channel "GRPX" "GRPX")
    (World ["STAT:DEV:GRPX:PSU:ACTN:CLMP"] [] [])
  = (Ok "CLAMP", World [] ["READ:DEV:GRPX:PSU:ACTN"] []).
Proof.
  apply (ramp_status_decodes (MercurySlavePS.Channel "GRPX" "GRPX")
           "CLAMP" "CLMP" [] [] []); vm_compute; reflexivity.
Defined.

(** X15: when the instrument rejects the READ that opens a write of the
    ramp status, the write fails with a [KeyError] on the colon-free
    reply, after logging it, and no SET command is sent. *)
Theorem ramp_status_set_read_rejected (float_repr : float -> string)
    (self : MercurySlavePS.t) (new tok r : string)
    (rest snt errs : list string) :
  MercurySlavePS.ramp_val_mapping !! new = Some tok ->
  contains "INVALID" r = true ->
  MercurySlavePS.ramp_status_set float_repr self new
    (World (r :: rest) snt errs)
  = (Raise (KeyError (_response_preparser r)),
     World rest
       (snt ++ ["READ:DEV:" ++ MercurySlavePS.uid self ++ ":PSU:ACTN"])
       (errs ++ ["Invalid command. Got response: " ++ r])).
Proof.
  intros Hmap Hinv.
  unfold MercurySlavePS.ramp_status_set, Param.set_mapped. rewrite Hmap.
  unfold MercurySlavePS._ramp_status_setter, mbind, M_bind.
  unfold MercurySlavePS.ramp_status.
  rewrite get_mapped_run, (param_getter_invalid _ _ _ _ _ _ Hinv).
  by rewrite (ramp_decode_invalid _ Hinv).
Qed.

Lemma ramp_status_set_read_rejected_witness :
  MercurySlavePS.ramp_status_set (fun _ => "")
    (MercurySlavePS.Channel "GRPX" "GRPX") "HOLD"
    (World ["STAT:DEV:GRPX:PSU:ACTN:INVALID"; "unused"] [] [])
  = (Raise (KeyError "STATDEVGRPXPSUACTNINVALID"),
     World ["unused"] ["READ:DEV:GRPX:PSU:ACTN"]
       ["Invalid command. Got response: STAT:DEV:GRPX:PSU:ACTN:INVALID"]).
Proof.
  apply (ramp_status_set_read_rejected (fun _ => "")
           (MercurySlavePS.Channel "GRPX" "GRPX") "HOLD" "HOLD"
           "STAT:DEV:GRPX:PSU:ACTN:INVALID" ["unused"] [] []);
    vm_compute; reflexivity.
Defined.

(** ** The identity query *)

Section idn_facts.
Implicit Types (w : world) (raw : string).

Lemma idn_getter_run w :
  MercuryiPS._idn_getter w =
  match MercuryiPS.ask "*IDN?" w with
  | (Ok raw, w1) =>
      (match split ":" raw with
       | _ :: vendor :: model :: serial :: firmware :: _ =>
           Ok (<["model" := model]>
               (<["vendor" := vendor]>
               (<["serial" := serial]>
               (<["firmware" := firmware]> (∅ : gmap string string)))))
       | _ => Raise IndexError
       end, w1)
  | (Raise e, w1) => (Raise e, w1)
  end.
Proof.
  unfold MercuryiPS._idn_getter, mbind, M_bind, lift, getitem.
  destruct (MercuryiPS.ask "*IDN?" w) as [[raw|e] w1]; [|done].
  by destruct (split ":" raw) as [|f0 [|f1 [|f2 [|f3 [|f4 fs]]]]].
Qed.

End idn_facts.

(** X16: from an identity reply of colon-free fields
    [preamble:vendor:model:serial:firmware] and any further ones, the
    identity query builds the record of vendor, model, serial and
    firmware; the preamble and the further fields are dropped. *)
Theorem idn_getter_fields (preamble vendor model serial firmware : string)
    (more rest snt errs : list string) :
  let r := String.concat ":"
             (preamble :: vendor :: model :: serial :: firmware :: more) in
  Forall (fun s => free_of is_colon s = true)
    (preamble :: vendor :: model :: serial :: firmware :: more) ->
  contains "INVALID" r = false -> endswith r "VALID" = false ->
  contains "STAT:*IDN?" r = false ->
  MercuryiPS._idn_getter (World (r :: rest) snt errs)
  = (Ok (<["model" := model]>
         (<["vendor" := vendor]>
         (<["serial" := serial]>
         (<["firmware" := firmware]> ∅)))),
     World rest (snt ++ ["*IDN?"]) errs).
Proof.
  intros r Hfields Hinv Hval Hecho.
  rewrite idn_getter_run, ask_run, Hinv, Hval.
  change ("STAT:" ++ replace "READ:" "" "*IDN?") with "STAT:*IDN?".
  rewrite (replace_absent _ _ _ Hecho). subst r.
  rewrite split_concat; [done|].
  eapply Forall_impl; [exact Hfields|]. intros s. apply free_of_colon.
Qed.

Lemma idn_getter_fields_witness :
  MercuryiPS._idn_getter
    (World ["IDN:OXFORD INSTRUMENTS:MERCURY IPS:1234:2.3.4:extra"] [] [])
  = (Ok (<["model" := "MERCURY IPS"]>
         (<["vendor" := "OXFORD INSTRUMENTS"]>
         (<["serial" := "1234"]>
         (<["firmware" := "2.3.4"]> ∅)))),
     World [] ["*IDN?"] []).
Proof.
  apply (idn_getter_fields "IDN" "OXFORD INSTRUMENTS" "MERCURY IPS" "1234"
           "2.3.4" ["extra"] [] [] []); try reflexivity.
  repeat constructor.
Defined.

(** X17: once [ask] has returned the identity reply, the identity query
    succeeds when the reply has at least four colons and fails with
    [IndexError] when it has fewer. *)
Theorem idn_getter_needs_five_fields (w w1 : world) (raw : string) :
  MercuryiPS.ask "*IDN?" w = (Ok raw, w1) ->
  ((4 <= count_chars (Ascii.eqb ":") raw)%nat ->
   exists idn, MercuryiPS._idn_getter w = (Ok idn, w1))
  /\ ((count_chars (Ascii.eqb ":") raw < 4)%nat ->
      MercuryiPS._idn_getter w = (Raise IndexError, w1)).
Proof.
  intros Hask. rewrite idn_getter_run, Hask.
  pose proof (split_length ":" raw) as Hlen.
  destruct (split ":" raw) as [|f0 [|f1 [|f2 [|f3 [|f4 fs]]]]];
    simpl in Hlen; split; intros Hcount; try lia; try done; by eexists.
Qed.

Lemma idn_getter_needs_five_fields_witness :
  MercuryiPS._idn_getter (World ["IDN:OXFORD INSTRUMENTS:MERCURY IPS"] [] [])
  = (Raise IndexError, World [] ["*IDN?"] []).
Proof.
  destruct (idn_getter_needs_five_fields
              (World ["IDN:OXFORD INSTRUMENTS:MERCURY IPS"] [] [])
              (World [] ["*IDN?"] []) "IDN:OXFORD INSTRUMENTS:MERCURY IPS")
    as [_ Hshort]; [reflexivity|].
  apply Hshort. vm_compute. lia.
Defined.

(** ** More on the target vector *)

(** X18: after a target was set, every target reading is the
    candidate's component if the field limits admitted it, and is what
    it was before the call if they did not. *)
Theorem get_component_after_set_target {FieldVector : Type}
    (fv_new : FieldVector)
    (fv_set_component :
       coordinate -> pyval -> FieldVector -> result unit * FieldVector)
    (fv_get_component : FieldVector -> coordinate -> float)
    (float_repr : float -> string)
    (self : MercuryiPS.t) (c c' : coordinate) (v : pyval)
    (h : MercuryiPS.heap) :
  (MercuryiPS._target_vector self < MercuryiPS.next h)%nat ->
  let live := MercuryiPS.obj h (MercuryiPS._target_vector self) in
  let candidate := (fv_set_component c v live).2 in
  let admitted :=
    MercuryiPS._field_limits self
      (fv_get_component candidate x) (fv_get_component candidate y)
      (fv_get_component candidate z) in
  let after :=
    MercuryiPS._set_target fv_new fv_set_component fv_get_component
      float_repr self c v h in
  (fv_set_component c v live).1 = Ok tt ->
  MercuryiPS._get_component fv_get_component self c' after.2
  = (Ok (fv_get_component (if admitted then candidate else live) c'), after.2).
Proof.
  intros Hlive live candidate admitted after Hset.
  destruct (set_target_run fv_new fv_set_component fv_get_component
              float_repr self c v h Hlive) as [_ Hrun].
  fold live in Hrun. rewrite Hset in Hrun. fold candidate admitted in Hrun.
  fold after in Hrun.
  unfold MercuryiPS._get_component, MercuryiPS.get_components.
  destruct admitted; destruct Hrun as [_ ->]; reflexivity.
Qed.

Lemma get_component_after_set_target_witness :
  let self := MercuryiPS.Driver Cartesian.unit_ball 0 in
  let h := MercuryiPS.Heap 1 (fun _ => Cartesian.new) in
  let after :=
    MercuryiPS._set_target Cartesian.new Cartesian.set_component
      Cartesian.get_component (fun _ => "") self y
      (VFloat (Float64.of_int 2)) h in
  (MercuryiPS._get_component Cartesian.get_component self y after.2).1
  = Ok (Float64.of_int 0).
Proof.
  intros self h after. subst after.
  rewrite (get_component_after_set_target Cartesian.new
             Cartesian.set_component Cartesian.get_component (fun _ => "")
             self y y (VFloat (Float64.of_int 2)) h);
    [reflexivity|vm_compute; lia|reflexivity].
Defined.

(** X19: a driver built without field limits admits every target: the
    outcome of setting a target is the outcome of [set_component], and
    the limits error is never raised. *)
Theorem set_target_without_limits {FieldVector : Type}
    (fv_new : FieldVector)
    (fv_set_component :
       coordinate -> pyval -> FieldVector -> result unit * FieldVector)
    (fv_get_component : FieldVector -> coordinate -> float)
    (float_repr : float -> string)
    (target_vector : nat) (c : coordinate) (v : pyval)
    (h : MercuryiPS.heap) :
  (target_vector < MercuryiPS.next h)%nat ->
  let self :=
    MercuryiPS.Driver (MercuryiPS.effective_field_limits FLNone)
      target_vector in
  let live := MercuryiPS.obj h target_vector in
  let after :=
    MercuryiPS._set_target fv_new fv_set_component fv_get_component
      float_repr self c v h in
  after.1 = (fv_set_component c v live).1
  /\ ((fv_set_component c v live).1 = Ok tt ->
      MercuryiPS.obj after.2 target_vector = (fv_set_component c v live).2).
Proof.
  intros Hlive self live after.
  destruct (set_target_run fv_new fv_set_component fv_get_component
              float_repr self c v h Hlive) as [_ Hrun].
  fold live after in Hrun.
  change (MercuryiPS._field_limits self) with (fun _ _ _ : float => true)
    in Hrun.
  cbv beta iota in Hrun. clearbody after.
  change (MercuryiPS._target_vector self) with target_vector in Hrun.
  fold live in Hrun.
  destruct (fv_set_component c v live) as [[[]|e] cand];
    simpl in Hrun |- *; destruct Hrun as [-> Hobj]; done.
Qed.

Lemma set_target_without_limits_witness :
  let h := MercuryiPS.Heap 1 (fun _ => Cartesian.new) in
  let after :=
    MercuryiPS._set_target Cartesian.new Cartesian.set_component
      Cartesian.get_component (fun _ => "")
      (MercuryiPS.Driver (MercuryiPS.effective_field_limits FLNone) 0) z
      (VFloat (Float64.of_int 12)) h in
  after.1 = Ok tt.
Proof.
  intros h after.
  destruct (set_target_without_limits Cartesian.new Cartesian.set_component
              Cartesian.get_component (fun _ => "") 0 z
              (VFloat (Float64.of_int 12)) h) as [Hres _];
    [vm_compute; lia|].
  exact Hres.
Defined.

(** ** More on construction *)

Section init_facts.
Implicit Types (name address s : string) (fl : field_limits_arg).

Lemma init_with_visalib name address s fl :
  s <> "" -> is_none_or_callable fl = true ->
  MercuryiPS.__init__ name address (Some s) fl =
  match split "@" s !! 1%nat with
  | Some backend =>
      if negb (endswith address "SOCKET") && negb (String.eqb backend "sim")
      then Raise address_error else Ok backend
  | None => Raise IndexError
  end.
Proof.
  intros Hs Hfl. destruct s as [|c s]; [done|].
  unfold MercuryiPS.__init__.
  assert (negb (MercuryiPS.is_none fl) && negb (MercuryiPS.callable fl) = false)
    as -> by by destruct fl.
  by destruct (split "@" (String c s) !! 1%nat).
Qed.

Lemma init_without_visalib name address (visalib : option string) fl :
  visalib = None \/ visalib = Some "" -> is_none_or_callable fl = true ->
  MercuryiPS.__init__ name address visalib fl =
  if endswith address "SOCKET" then Ok "NI" else Raise address_error.
Proof.
  intros Hv Hfl. unfold MercuryiPS.__init__.
  assert (negb (MercuryiPS.is_none fl) && negb (MercuryiPS.callable fl) = false)
    as -> by by destruct fl.
  destruct Hv as [-> | ->]; by destruct (endswith address "SOCKET").
Qed.

End init_facts.

(** X20: with valid field limits, the driver's constructor takes the
    VISA backend from behind the ['@'] of [visalib], or [NI] without a
    [visalib]; it accepts an address that ends with [SOCKET], and any
    address when the backend is [sim]; it refuses every other address
    with a [ValueError], and a non-empty [visalib] without ['@'] with an
    [IndexError]. *)
Theorem init_address_rules (name address : string) (fl : field_limits_arg) :
  is_none_or_callable fl = true ->
  (forall visalib, visalib = None \/ visalib = Some "" ->
     (endswith address "SOCKET" = true ->
      MercuryiPS.__init__ name address visalib fl = Ok "NI")
     /\ (endswith address "SOCKET" = false ->
         exists msg, MercuryiPS.__init__ name address visalib fl
                     = Raise (ValueError msg)))
  /\ (forall lib backend,
        free_of (Ascii.eqb "@") lib = true ->
        free_of (Ascii.eqb "@") backend = true ->
        (endswith address "SOCKET" = true \/ backend = "sim" ->
         MercuryiPS.__init__ name address (Some (lib ++ "@" ++ backend)) fl
         = Ok backend)
        /\ (endswith address "SOCKET" = false -> backend <> "sim" ->
            exists msg,
              MercuryiPS.__init__ name address (Some (lib ++ "@" ++ backend)) fl
              = Raise (ValueError msg)))
  /\ (forall lib,
        lib <> "" -> free_of (Ascii.eqb "@") lib = true ->
        MercuryiPS.__init__ name address (Some lib) fl = Raise IndexError).
Proof.
  intros Hfl. split; [|split].
  - intros visalib Hv. rewrite (init_without_visalib _ _ _ _ Hv Hfl).
    split; intros ->; [done|by eexists].
  - intros lib backend Hlib Hbackend.
    assert (lib ++ "@" ++ backend <> "") as Hne by by destruct lib.
    rewrite (init_with_visalib _ _ _ _ Hne Hfl).
    change (lib ++ "@" ++ backend) with (lib ++ String "@" backend).
    rewrite split_app, (split_free _ lib Hlib), (split_free _ backend Hbackend).
    simpl. split.
    + intros [-> | ->]; [done|]. by rewrite andb_false_r.
    + intros -> Hsim. apply String.eqb_neq in Hsim as ->. by eexists.
  - intros lib Hne Hlib.
    by rewrite (init_with_visalib _ _ _ _ Hne Hfl), (split_free _ lib Hlib).
Qed.

Lemma init_address_rules_witness :
  MercuryiPS.__init__ "mips" "GPIB::1::INSTR" (Some "MercuryiPS.yaml@sim")
    FLNone
  = Ok "sim".
Proof.
  destruct (init_address_rules "mips" "GPIB::1::INSTR" FLNone eq_refl)
    as (_ & Hsim & _).
  destruct (Hsim "MercuryiPS.yaml" "sim") as [Hok _]; [reflexivity..|].
  apply Hok. by right.
Defined.
